(** * CoderUJB test-generation evaluator: validation pipeline and pass@k

    A shallow embedding of [code_ujb/tasks/code_ujb_testgen.py]:
    the pass@k estimator [get_pass_at_k], the splice performed by
    [validate_all_patches], the stage logic of [run_d4j_test], the report
    walk of [analysis_coverage] and the changed-line aggregation of
    [CodeUJBTestGen.evaluate]; further the stopping rule
    [StreamStopUJBTestGen.check_stop], the post-processing helpers
    [_stop_at_function], [_stop_at_stop_token] and
    [postprocess_generation_complete], the counters and the pass@k and
    pass@t rounds of [evaluate], and the scoring of
    [code_ujb/tasks/code_ujb_mbpp.py] ([estimate_pass_at_k],
    [compute_code_eval], [MBPP.evaluate]).

    Conventions.
    - Python [float] values are idealised as exact rationals [Q]. The
      properties stated for them concern sign, order, range or a branch of
      the code; the two that equate the estimator with a closed form (the
      binomial form of its docstring, the pass rate at k = 1) hold of the
      formula, the printed value being its rounding.
      The exception is the pass@t round, whose two divisions decide a
      branch by their rounding: there [/] is the rounding to binary64.
      Non-finite floats are not represented.
    - The bytes read from a subprocess are taken to be ASCII text, so
      [.decode('utf-8')] is the identity and a line is a [string] that
      still carries its terminator, as [readlines()] returns it.
    - Whatever lies outside the Python process (the Java parser, the
      [defects4j] commands, the coverage report on disk, the [float] and
      [int] parsers) is a field of the record [World].
    - Each polling loop of [run_d4j_test] is represented by the branch
      through which it is left; the clock and the 10 ms sleeps are not.
      The scan of [/tmp/stderr.txt] after a non-zero exit only assigns
      [error_string], which is never read, and is left out; on ASCII text
      its [decode] cannot raise.
    - The checkout, the two file writes and the launch of a command are
      taken to succeed; what the trial does when one of them raises is
      not represented.
    - The characters of a generation are taken to be ASCII; the scans
      only compare characters with quotes and braces.
    - In [compute_code_eval] the answers of [check_correctness] are the
      input: one list of [passed] flags for each task. The order in which
      the thread pool completes them only permutes the tasks, and every
      value computed from them is a mean or a conjunction over the tasks. *)

From Stdlib Require Import QArith Qround Qpower Lqa Lia ZArith List Ascii.
From Stdlib Require String.
From stdpp Require Import base list strings gmap sets pretty.

Local Open Scope Z_scope.

(** ** Statistical estimator *)

Module Estimator.

(** [np.arange(a, b)] on integers: [a, a+1, ..., b-1]. *)
Definition arange (a b : Z) : list Z := seqZ a (b - a).

(** [np.prod]: a left fold of the multiplication starting at 1. *)
Definition np_prod (xs : list Q) : Q := fold_left Qmult xs 1%Q.

(** [1.0 - k / np.arange(...)], element by element.  The division is
    Python's true division; it is only evaluated at [i <> 0] under the
    preconditions used below. *)
Definition one_minus_k_over (k : Z) (i : Z) : Q :=
  (1 - inject_Z k / inject_Z i)%Q.

Definition get_pass_at_k (n c k : Z) : Q :=
  if n - c <? k then 1%Q
  else (1 - np_prod (map (one_minus_k_over k) (arange (n - c + 1) (n + 1))))%Q.

(** The inner [estimator] of [estimate_pass_at_k] in the sibling
    evaluators has the same body. *)
Definition estimator (n c k : Z) : Q :=
  if n - c <? k then 1%Q
  else (1 - np_prod (map (one_minus_k_over k) (arange (n - c + 1) (n + 1))))%Q.

(** The product of the specification, [Π_{i=lo}^{lo+len-1} f i], written as
    the usual recursion on the number of factors. *)
Fixpoint big_prod (f : Z -> Q) (lo : Z) (len : nat) : Q :=
  match len with
  | O => 1%Q
  | S len' => (f lo * big_prod f (lo + 1) len')%Q
  end.

End Estimator.

(** ** Python values used by the pipeline *)

Module Py.

Inductive exn : Type :=
| IndexError
| KeyError (key : string)
| ValueError
| FileNotFoundError
| ParseError.

Inductive result (A : Type) : Type :=
| Ret (a : A)
| Raise (e : exn).
Arguments Ret {A} a.
Arguments Raise {A} e.

(** A slice bound, normalised as CPython does: a negative bound counts from
    the end, and the outcome is clamped to [0, len]. *)
Definition norm_index (len : nat) (i : Z) : nat :=
  if i <? 0 then Z.to_nat (Z.max 0 (Z.of_nat len + i))
  else Z.to_nat (Z.min i (Z.of_nat len)).

(** [l[:i]] *)
Definition slice_to {A} (l : list A) (i : Z) : list A :=
  take (norm_index (length l) i) l.

(** [l[i:]] *)
Definition slice_from {A} (l : list A) (i : Z) : list A :=
  drop (norm_index (length l) i) l.

(** [l[i:j]] *)
Definition slice {A} (l : list A) (i j : Z) : list A :=
  let a := norm_index (length l) i in
  let b := norm_index (length l) j in
  take (b - a)%nat (drop a l).

(** [l[i]] for any integer index: [IndexError] out of range. *)
Definition index {A} (l : list A) (i : Z) : result A :=
  let j := if i <? 0 then Z.of_nat (length l) + i else i in
  if j <? 0 then Raise IndexError
  else match l !! Z.to_nat j with
       | Some x => Ret x
       | None => Raise IndexError
       end.

(** [d[key]] on an attribute dictionary. *)
Fixpoint getitem (d : list (string * string)) (key : string) : result string :=
  match d with
  | [] => Raise (KeyError key)
  | (k, v) :: d' => if String.eqb k key then Ret v else getitem d' key
  end.

Definition nl : ascii := "010"%char.
Definition LF : string := String nl EmptyString.

(** [s.split(sep)] for a one-character separator: never the empty list. *)
Fixpoint split_on (sep : ascii) (s : string) : list string :=
  match s with
  | EmptyString => [EmptyString]
  | String ch rest =>
      if Ascii.eqb ch sep then EmptyString :: split_on sep rest
      else match split_on sep rest with
           | [] => [String ch EmptyString]
           | w :: ws => String ch w :: ws
           end
  end.

(** [sep.join(l)] *)
Fixpoint join (sep : string) (l : list string) : string :=
  match l with
  | [] => EmptyString
  | [x] => x
  | x :: xs => x +:+ sep +:+ join sep xs
  end.

(** [str.isspace] on one ASCII character. *)
Definition is_space (ch : ascii) : bool :=
  let n := nat_of_ascii ch in
  ((9 <=? n) && (n <=? 13) || (28 <=? n) && (n <=? 32))%nat.

Fixpoint lstrip (s : string) : string :=
  match s with
  | EmptyString => EmptyString
  | String ch rest => if is_space ch then lstrip rest else s
  end.

Fixpoint rstrip (s : string) : string :=
  match s with
  | EmptyString => EmptyString
  | String ch rest =>
      match rstrip rest with
      | EmptyString => if is_space ch then EmptyString else String ch EmptyString
      | r => String ch r
      end
  end.

(** [s.strip()] *)
Definition strip (s : string) : string := rstrip (lstrip s).

(** [needle in s] *)
Fixpoint contains (needle s : string) : bool :=
  String.prefix needle s ||
  match s with
  | EmptyString => false
  | String _ rest => contains needle rest
  end.

(** [ch in s] for one character. *)
Fixpoint mem_char (ch : ascii) (s : string) : bool :=
  match s with
  | EmptyString => false
  | String c rest => Ascii.eqb c ch || mem_char ch rest
  end.

(** [s.replace(ch, "")] for a one-character [ch]. *)
Fixpoint remove_char (ch : ascii) (s : string) : string :=
  match s with
  | EmptyString => EmptyString
  | String c rest =>
      if Ascii.eqb c ch then remove_char ch rest else String c (remove_char ch rest)
  end.

Fixpoint ends_with_slash (s : string) : bool :=
  match s with
  | EmptyString => false
  | String c EmptyString => Ascii.eqb c "/"%char
  | String _ rest => ends_with_slash rest
  end.

(** [os.path.join(a, b)] for a relative, non-empty [b]. *)
Definition path_join (a b : string) : string :=
  match a with
  | EmptyString => b
  | _ => if ends_with_slash a then a +:+ b else a +:+ "/" +:+ b
  end.

End Py.

(** ** The coverage report *)

Module Xml.

#[local] Set Warnings "-register-all".

(** An [xml.etree.ElementTree] element: tag, attribute dictionary, children. *)
Inductive element : Type :=
| Element (tag : string) (attrib : list (string * string)) (children : list element).

Definition tag (e : element) : string :=
  match e with Element t _ _ => t end.

Definition attrib (e : element) : list (string * string) :=
  match e with Element _ a _ => a end.

Definition children (e : element) : list element :=
  match e with Element _ _ cs => cs end.

(** All proper descendants, in document order. *)
Fixpoint descendants (e : element) : list element :=
  match e with
  | Element _ _ cs => flat_map (fun c => c :: descendants c) cs
  end.

(** [e.findall(".//name")] *)
Definition findall (name : string) (e : element) : list element :=
  List.filter (fun d => String.eqb (tag d) name) (descendants e).

(** What [ET.parse(path)] meets at [path]: no file, a file that is not
    well-formed XML, or a document with its root element. *)
Inductive document : Type :=
| NoSuchFile
| NotWellFormed
| Document (root : element).

End Xml.

(** ** The validation pipeline *)

Module Pipeline.
Import Py.

(** How one of the two polling loops of [run_d4j_test] is left: through the
    [Flag == 0] branch with the lines of [child.stdout.readlines()], through
    the non-zero branch, or through the deadline branch that kills the
    process group. *)
Inductive loop_exit : Type :=
| ExitZero (stdout : list string)
| ExitNonZero (code : Z)
| DeadlinePassed.

(** One coverage record: (class name, file name, line number, hit). The line
    number stays the attribute string, as in the source. *)
Definition cov_record : Type := (string * string * string * bool)%type.

(** Everything the trial observes of the outside. [popen cmd limit] tells how
    the polling loop for shell command [cmd] ends under a deadline of [limit]
    seconds; [coverage_xml path] is what [ET.parse(path)] meets at [path];
    [py_float] and [py_int] are Python's conversions,
    [None] standing for [ValueError]. *)
Record World : Type := {
  javalang_parses : string -> bool;
  popen : string -> Z -> loop_exit;
  coverage_xml : string -> Xml.document;
  py_float : string -> option Q;
  py_int : string -> option Z
}.

(** Effects that leave the Python process. *)
Inductive event : Type :=
| SubprocessRun (argv : list string)
| Popen (cmd : string) (limit : Z)
| Killpg (cmd : string)
| WriteFile (path content : string).

(** Trace of effects, then the value or the exception. *)
Definition M (A : Type) : Type := (list event * result A)%type.

Definition ret {A} (a : A) : M A := ([], Ret a).
Definition emit (ev : event) : M unit := ([ev], Ret tt).
Definition lift {A} (r : result A) : M A := ([], r).

Definition bind {A B} (m : M A) (f : A -> M B) : M B :=
  match m with
  | (t, Ret a) => let (t', r) := f a in (t ++ t', r)
  | (t, Raise e) => (t, Raise e)
  end.

Notation "'let*' x ':=' m 'in' k" := (bind m (fun x => k))
  (at level 10, x pattern, m at level 100, k at level 200).

(** [for x in xs: acc.append(f x)], stopping at the first exception. *)
Fixpoint for_each {A B} (f : A -> result (list B)) (xs : list A) : result (list B) :=
  match xs with
  | [] => Ret []
  | x :: xs' =>
      match f x with
      | Raise e => Raise e
      | Ret ys =>
          match for_each f xs' with
          | Raise e => Raise e
          | Ret zs => Ret (ys ++ zs)
          end
      end
  end.

(** The tuple returned by [run_d4j_test]. *)
Record d4j_result : Type := {
  compile_fail : bool;
  timed_out : bool;
  bugg : bool;
  line_coverage : Q;
  condition_coverage : Q;
  syntax_error : bool;
  lines_coverage_info : list cov_record
}.

(** The dictionary returned by [validate_all_patches]. *)
Record Outcome : Type := {
  o_idx : Z;
  o_project : string;
  o_bug_id : Z;
  pass_syntax : bool;
  pass_compile : bool;
  pass_trigger : bool;
  o_line_coverage : Q;
  o_condition_coverage : Q;
  o_timed_out : bool;
  o_lines_coverage_info : list cov_record
}.

(** The argument tuple of [validate_all_patches]. *)
Record Item : Type := {
  idx : Z;
  patch : string;
  project : string;
  bug_id : Z;
  testmethods : list string;
  source_dir : string;
  start : Z;
  end_ : Z;
  location : string;
  source : string;
  be_test_classes : list string
}.

Definition marker : string := "Failing tests: 0" +:+ LF.

(** Lines 393-397: the value of [bugg] after the build/run loop. *)
Definition trigger_bugg (log : list string) : bool :=
  match last log with
  | Some l => negb (String.eqb l marker)
  | None => true
  end.

(** [line.split(":")[-1].strip().replace("%", "")] *)
Definition percent_field (line : string) : string :=
  remove_char "%"%char
    (strip (List.last (split_on ":"%char line) EmptyString)).

(** ['defects4j test -w %s/ -t %s' % (workdir, testmethod.strip())] *)
Definition test_cmd (workdir testmethod : string) : string :=
  "defects4j test -w " +:+ workdir +:+ "/ -t " +:+ strip testmethod.

(** [" ".join(["defects4j", "coverage", "-w", workdir, "-t",
    testmethod.strip(), "-i", increment_path])] *)
Definition coverage_cmd (workdir testmethod : string) : string :=
  join " " ["defects4j"; "coverage"; "-w"; workdir; "-t"; strip testmethod;
            "-i"; path_join workdir "increment.txt"].

(** [f"{project}-{bug_id}-" + generate_random_string(8)] *)
Definition tmp_folder (random_string : string) (item : Item) : string :=
  project item +:+ "-" +:+ pretty (bug_id item) +:+ "-" +:+ random_string.

(** The dictionary built at lines 329-340. *)
Definition outcome_of (item : Item) (r : d4j_result) : Outcome :=
  {| o_idx := idx item;
     o_project := project item;
     o_bug_id := bug_id item;
     pass_syntax := negb (syntax_error r);
     pass_compile := negb (compile_fail r);
     pass_trigger := negb (bugg r);
     o_line_coverage := line_coverage r;
     o_condition_coverage := condition_coverage r;
     o_timed_out := timed_out r;
     o_lines_coverage_info := lines_coverage_info r |}.

(** The three [subprocess.run] calls and the [save_file] call of
    [validate_all_patches]. *)
Definition rm_event (tmp_folder : string) : event :=
  SubprocessRun ["rm"; "-rf"; "/tmp/" +:+ tmp_folder].

Definition checkout_event (item : Item) (tmp_folder : string) : event :=
  SubprocessRun ["defects4j"; "checkout"; "-p"; project item;
                 "-v"; pretty (bug_id item) +:+ "f";
                 "-w"; "/tmp/" +:+ tmp_folder].

Definition save_event (item : Item) (tmp_folder source : string) : event :=
  WriteFile ("/tmp/" +:+ tmp_folder +:+ "/" +:+ location item) source.

(** The scope file written before the coverage command. *)
Definition increment_event (workdir : string) (be_test_classes : list string) : event :=
  WriteFile (path_join workdir "increment.txt")
            (String.concat EmptyString (map (fun file => file +:+ LF) be_test_classes)).

(** What [run_d4j_test] returns when it stops before the coverage stage. *)
Definition failed_result (compile_fail timed_out : bool) : d4j_result :=
  {| compile_fail := compile_fail; timed_out := timed_out; bugg := true;
     line_coverage := 0; condition_coverage := 0;
     syntax_error := false; lines_coverage_info := [] |}.

(** The item with another trigger-test list. *)
Definition with_testmethods (item : Item) (tms : list string) : Item :=
  {| idx := idx item; patch := patch item; project := project item;
     bug_id := bug_id item; testmethods := tms;
     source_dir := source_dir item; start := start item; end_ := end_ item;
     location := location item; source := source item;
     be_test_classes := be_test_classes item |}.

(** Whether an effect starts a child process. *)
Definition launches_subprocess (ev : event) : bool :=
  match ev with
  | SubprocessRun _ | Popen _ _ => true
  | Killpg _ | WriteFile _ _ => false
  end.

Section WithWorld.

Variable w : World.

(** [float(percent_field line) / 100.0] *)
Definition read_percent (line : string) : result Q :=
  match py_float w (percent_field line) with
  | Some q => Ret (q / 100)%Q
  | None => Raise ValueError
  end.

(** One [<line>] element of a class. *)
Definition line_record (cname cfile : string) (l : Xml.element) : result (list cov_record) :=
  match getitem (Xml.attrib l) "number" with
  | Raise e => Raise e
  | Ret number =>
      match getitem (Xml.attrib l) "hits" with
      | Raise e => Raise e
      | Ret hits =>
          match py_int w hits with
          | None => Raise ValueError
          | Some h => Ret [(cname, cfile, number, 0 <? h)]
          end
      end
  end.

Definition class_records (c : Xml.element) : result (list cov_record) :=
  match getitem (Xml.attrib c) "name" with
  | Raise e => Raise e
  | Ret cname =>
      match getitem (Xml.attrib c) "filename" with
      | Raise e => Raise e
      | Ret cfile => for_each (line_record cname cfile) (Xml.findall "line" c)
      end
  end.

Definition package_records (p : Xml.element) : result (list cov_record) :=
  for_each class_records (Xml.findall "class" p).

Definition analysis_coverage (tmp_project_path : string) : result (list cov_record) :=
  match coverage_xml w (path_join tmp_project_path "coverage.xml") with
  | Xml.NoSuchFile => Raise FileNotFoundError
  | Xml.NotWellFormed => Raise ParseError
  | Xml.Document root => for_each package_records (Xml.findall "package" root)
  end.

(** The build/run loop (lines 365-392): [(compile_fail, timed_out, Returncode)]. *)
Definition build_loop (cmd : string) : M (bool * bool * list string) :=
  let* _ := emit (Popen cmd 120) in
  match popen w cmd 120 with
  | ExitZero out => ret (false, false, out)
  | ExitNonZero _ => ret (true, false, [])
  | DeadlinePassed => let* _ := emit (Killpg cmd) in ret (false, true, [])
  end.

(** The coverage loop (lines 405-422): [(bugg, Returncode)]. *)
Definition coverage_loop (cmd : string) : M (bool * list string) :=
  let* _ := emit (Popen cmd 180) in
  match popen w cmd 180 with
  | ExitZero out => ret (false, out)
  | ExitNonZero _ => ret (true, [])
  | DeadlinePassed => let* _ := emit (Killpg cmd) in ret (true, [])
  end.

(** Lines 423-431: what is read from the coverage command's output. *)
Definition read_coverage (workdir : string) (log : list string)
  : M (Q * Q * list cov_record) :=
  match log with
  | [] => ret (0%Q, 0%Q, [])
  | _ :: _ =>
      let* l2 := lift (index log (-2)) in
      let* lc := (if contains "Line coverage:" l2
                  then lift (read_percent l2) else ret 0%Q) in
      let* l1 := lift (index log (-1)) in
      let* cc := (if contains "Condition coverage:" l1
                  then lift (read_percent l1) else ret 0%Q) in
      let* info := lift (analysis_coverage workdir) in
      ret (lc, cc, info)
  end.

(** Lines 399-431. *)
Definition coverage_stage (workdir testmethod : string) (be_test_classes : list string)
  : M (bool * Q * Q * list cov_record) :=
  let* _ := emit (increment_event workdir be_test_classes) in
  let cmd := coverage_cmd workdir testmethod in
  let* (bugg, log) := coverage_loop cmd in
  let* (lc, cc, info) := read_coverage workdir log in
  ret (bugg, lc, cc, info).

Definition Qis_zero (q : Q) : bool := Qeq_bool q 0.

Definition run_d4j_test (source : string) (testmethods : list string)
    (bug_id : string) (be_test_classes : list string) : M d4j_result :=
  if negb (javalang_parses w source) then
    ret {| compile_fail := true; timed_out := false; bugg := true;
           line_coverage := 0; condition_coverage := 0;
           syntax_error := true; lines_coverage_info := [] |}
  else
    let* testmethod := lift (index testmethods 0) in
    let workdir := "/tmp/" +:+ bug_id in
    let cmd := test_cmd workdir testmethod in
    let* (compile_fail, timed_out, log) := build_loop cmd in
    let bugg := trigger_bugg log in
    let* (bugg, lc, cc, info) :=
       (if negb bugg
        then coverage_stage workdir testmethod be_test_classes
        else ret (bugg, 0%Q, 0%Q, [])) in
    let bugg := bugg || Qis_zero lc in
    ret {| compile_fail := compile_fail; timed_out := timed_out; bugg := bugg;
           line_coverage := lc; condition_coverage := cc;
           syntax_error := false; lines_coverage_info := info |}.

(** Lines 318-320: the text written back to the workspace. *)
Definition splice (source patch : string) (start end_ : Z) : string :=
  let source := split_on nl source in
  let patch := split_on nl patch in
  join LF (slice_to source start ++ patch ++ slice_from source (end_ + 1)).

(** [random_string] is the value of [generate_random_string(8)]. *)
Definition validate_all_patches (random_string : string) (item : Item) : M Outcome :=
  let tmp_folder := tmp_folder random_string item in
  let* _ := emit (rm_event tmp_folder) in
  let* _ := emit (checkout_event item tmp_folder) in
  let source := splice (source item) (patch item) (start item) (end_ item) in
  let* _ := emit (save_event item tmp_folder source) in
  let* r := run_d4j_test source (testmethods item) tmp_folder (be_test_classes item) in
  let* _ := emit (rm_event tmp_folder) in
  ret (outcome_of item r).

End WithWorld.

End Pipeline.

(** ** Well-formed reports and coverage output *)

Module WellFormed.
Import Py Pipeline.

Definition is_ret {A} (r : result A) : bool :=
  match r with Ret _ => true | Raise _ => false end.

(** A [<line>] with a [number] and an integer [hits]. *)
Definition line_ok (w : World) (l : Xml.element) : bool :=
  is_ret (getitem (Xml.attrib l) "number") &&
  match getitem (Xml.attrib l) "hits" with
  | Ret hits => match py_int w hits with Some _ => true | None => false end
  | Raise _ => false
  end.

(** A [<class>] with [name] and [filename] whose lines are all well formed. *)
Definition class_ok (w : World) (c : Xml.element) : bool :=
  is_ret (getitem (Xml.attrib c) "name") &&
  is_ret (getitem (Xml.attrib c) "filename") &&
  forallb (line_ok w) (Xml.findall "line" c).

Definition report_ok (w : World) (root : Xml.element) : bool :=
  forallb (fun p => forallb (class_ok w) (Xml.findall "class" p))
          (Xml.findall "package" root).

(** The number of [<line>] elements the three nested loops visit. *)
Definition lines_visited (root : Xml.element) : nat :=
  list_sum (map (fun p =>
    list_sum (map (fun c => length (Xml.findall "line" c))
                  (Xml.findall "class" p)))
    (Xml.findall "package" root)).

(** A line that either lacks the label or carries a convertible figure. *)
Definition percent_ok (w : World) (label line : string) : bool :=
  negb (contains label line) ||
  match py_float w (percent_field line) with Some _ => true | None => false end.

(** Output of the coverage command that [run_d4j_test] reads without an
    exception: nothing at all, or at least two lines whose labelled figures
    convert, next to a well-formed report. *)
Definition coverage_output_ok (w : World) (workdir : string) (out : list string) : bool :=
  match out with
  | [] => true
  | _ :: _ =>
      match index out (-2), index out (-1) with
      | Ret l2, Ret l1 =>
          percent_ok w "Line coverage:" l2 &&
          percent_ok w "Condition coverage:" l1 &&
          match coverage_xml w (path_join workdir "coverage.xml") with
          | Xml.Document root => report_ok w root
          | _ => false
          end
      | _, _ => false
      end
  end.

End WellFormed.

(** ** Concrete worlds for the examples *)

Module Sample.
Import Py Pipeline.

Definition digit_of (c : ascii) : option Z :=
  let n := Z.of_nat (nat_of_ascii c) in
  if (48 <=? n) && (n <=? 57) then Some (n - 48) else None.

Fixpoint digits_acc (s : string) (acc : Z) : option Z :=
  match s with
  | EmptyString => Some acc
  | String c rest =>
      match digit_of c with
      | Some d => digits_acc rest (10 * acc + d)
      | None => None
      end
  end.

Definition parse_digits (s : string) : option Z :=
  match s with
  | EmptyString => None
  | _ => digits_acc s 0
  end.

(** Signed decimal integers, the part of [int] the examples need. *)
Definition decimal_int (s : string) : option Z :=
  match s with
  | String "-"%char rest => option_map Z.opp (parse_digits rest)
  | _ => parse_digits s
  end.

Definition unsigned_decimal (s : string) : option Q :=
  match split_on "."%char s with
  | [i] => option_map inject_Z (parse_digits i)
  | [i; f] =>
      match parse_digits i, parse_digits f with
      | Some zi, Some zf =>
          Some (inject_Z zi + inject_Z zf / inject_Z (10 ^ Z.of_nat (String.length f)))%Q
      | _, _ => None
      end
  | _ => None
  end.

(** Signed decimal numerals, the part of [float] the examples need. *)
Definition decimal_float (s : string) : option Q :=
  match s with
  | String "-"%char rest => option_map Qopp (unsigned_decimal rest)
  | _ => unsigned_decimal s
  end.

Definition item : Item :=
  {| idx := 7; patch := "P"; project := "Lang"; bug_id := 1;
     testmethods := ["org.T::test1"; "org.T::test2"];
     source_dir := "src"; start := 1; end_ := 1;
     location := "src/A.java";
     source := "a" +:+ LF +:+ "b" +:+ LF +:+ "c";
     be_test_classes := ["org.A"] |}.

Definition line_el (number hits : string) : Xml.element :=
  Xml.Element "line" [("number", number); ("hits", hits)] [].

(** A report in the Cobertura layout, one class with two lines. *)
Definition report : Xml.element :=
  Xml.Element "coverage" []
    [Xml.Element "packages" []
       [Xml.Element "package" [("name", "org")]
          [Xml.Element "classes" []
             [Xml.Element "class" [("name", "org.A"); ("filename", "org/A.java")]
                [Xml.Element "lines" [] [line_el "3" "2"; line_el "4" "0"]]]]]].

(** The same report with the [filename] attribute of the class missing. *)
Definition report_bad_entry : Xml.element :=
  Xml.Element "coverage" []
    [Xml.Element "packages" []
       [Xml.Element "package" [("name", "org")]
          [Xml.Element "classes" []
             [Xml.Element "class" [("name", "org.A")]
                [Xml.Element "lines" [] [line_el "3" "2"; line_el "4" "0"]]]]]].

Definition test_passes : list string :=
  ["Running ant (run.dev.tests)" +:+ LF; marker].

Definition coverage_lines (line_pct : string) : list string :=
  ["Line coverage: " +:+ line_pct +:+ "%" +:+ LF;
   "Condition coverage: 50.0%" +:+ LF].

(** The test command exits cleanly with the marker and the coverage command
    exits cleanly with [cov]; [rep] is the report on disk. *)
Definition world_with (cov : loop_exit) (rep : Xml.document) : World :=
  {| javalang_parses := fun _ => true;
     popen := fun cmd _ =>
       if String.prefix "defects4j test" cmd then ExitZero test_passes else cov;
     coverage_xml := fun _ => rep;
     py_float := decimal_float;
     py_int := decimal_int |}.

Definition world_pass : World :=
  world_with (ExitZero (coverage_lines "80.0")) (Xml.Document report).

Definition world_no_report : World :=
  world_with (ExitZero (coverage_lines "80.0")) Xml.NoSuchFile.

Definition world_not_xml : World :=
  world_with (ExitZero (coverage_lines "80.0")) Xml.NotWellFormed.

Definition world_bad_entry : World :=
  world_with (ExitZero (coverage_lines "80.0")) (Xml.Document report_bad_entry).

Definition world_zero_coverage : World :=
  world_with (ExitZero (coverage_lines "0.0")) (Xml.Document report).

(** The build/run command never exits. *)
Definition world_hang : World :=
  {| javalang_parses := fun _ => true;
     popen := fun _ _ => DeadlinePassed;
     coverage_xml := fun _ => Xml.NoSuchFile;
     py_float := decimal_float;
     py_int := decimal_int |}.

(** The spliced source does not parse. *)
Definition world_syntax_error : World :=
  {| javalang_parses := fun _ => false;
     popen := fun _ _ => ExitZero test_passes;
     coverage_xml := fun _ => Xml.Document report;
     py_float := decimal_float;
     py_int := decimal_int |}.

(** An Outcome of a fully passing trial that reports the given records. *)
Definition outcome_with (lines : list cov_record) : Outcome :=
  {| o_idx := 7; o_project := "Lang"; o_bug_id := 1;
     pass_syntax := true; pass_compile := true; pass_trigger := true;
     o_line_coverage := 8 # 10; o_condition_coverage := 5 # 10;
     o_timed_out := false; o_lines_coverage_info := lines |}.

Definition line3 (hit : bool) : cov_record := ("org.A", "org/A.java", "3", hit).

End Sample.

(** ** Changed-line aggregation of [CodeUJBTestGen.evaluate] *)

Module Aggregate.
Import Pipeline.

(** Lines 238-239 for one outcome: [diff_coverage.add(line)] for each line. *)
Definition add_lines (s : gset cov_record) (lines : list cov_record) : gset cov_record :=
  fold_left (fun acc line => acc ∪ {[ line ]}) lines s.

(** The set [example_detail["diff_coverage"]] after the loop over the task's
    outcomes. *)
Definition diff_coverage_set (bug_results : list Outcome) : gset cov_record :=
  fold_left (fun acc detail => add_lines acc (o_lines_coverage_info detail))
            bug_results ∅.

Definition hit (r : cov_record) : bool := snd r.

(** The key named by the specification: (class, file, line number). *)
Definition key_of (r : cov_record) : string * string * string := fst r.

(** Lines 259-264. *)
Definition diff_coverage (bug_results : list Outcome) : Q :=
  let l := elements (diff_coverage_set bug_results) in
  if (length l =? 0)%nat then 0%Q
  else (inject_Z (Z.of_nat (length (List.filter hit l)))
        / inject_Z (Z.of_nat (length l)))%Q.

(** The denominator of [diff_coverage]. *)
Definition diff_denominator (bug_results : list Outcome) : nat :=
  length (elements (diff_coverage_set bug_results)).

(** The records of the set that carry a given key. *)
Definition records_with_key (k : string * string * string)
    (bug_results : list Outcome) : list cov_record :=
  List.filter (fun r => bool_decide (key_of r = k))
              (elements (diff_coverage_set bug_results)).

(** Whether some trial of the list reported record [r]. *)
Definition observed (r : cov_record) (bug_results : list Outcome) : bool :=
  existsb (fun d => existsb (fun x => bool_decide (x = r)) (o_lines_coverage_info d))
          bug_results.

End Aggregate.

(** ** The splice as the specification words it *)

Module SpecWording.
Import Py.

(** Replacement of the half-open line range [start, end): line [end] stays. *)
Definition splice_half_open (source patch : string) (start end_ : Z) : string :=
  let source := split_on nl source in
  let patch := split_on nl patch in
  join LF (slice_to source start ++ patch ++ slice_from source end_).

(** Reading back [n] lines at position [start] of a text. *)
Definition extract (text : string) (start : Z) (n : nat) : string :=
  join LF (slice (split_on nl text) start (start + Z.of_nat n)).

End SpecWording.

(** ** Post-processing of generations *)

Module Postprocess.
Import Py.

(** The four loop variables of [check_stop] and [_stop_at_function]. *)
Record scan_state : Type := {
  block_count : Z;
  in_block : bool;
  in_double_quote : bool;
  in_single_quote : bool
}.

Definition scan_init : scan_state :=
  {| block_count := 0; in_block := false;
     in_double_quote := false; in_single_quote := false |}.

(** The four [if] statements of one iteration, before the exit test. *)
Definition scan_step (st : scan_state) (ch : ascii) : scan_state :=
  let dq := if Ascii.eqb ch "034"%char then negb (in_double_quote st)
            else in_double_quote st in
  let sq := if Ascii.eqb ch "'"%char then negb (in_single_quote st)
            else in_single_quote st in
  let opens := Ascii.eqb ch "{"%char && negb dq in
  let bc := if opens then block_count st + 1 else block_count st in
  let ib := if opens then true else in_block st in
  let bc := if Ascii.eqb ch "}"%char && negb dq then bc - 1 else bc in
  {| block_count := bc; in_block := ib;
     in_double_quote := dq; in_single_quote := sq |}.

(** [block_count == 0 and in_block] *)
Definition balanced (st : scan_state) : bool :=
  (block_count st =? 0) && in_block st.

(** The loop of [check_stop]: [True] at the first index that balances. *)
Fixpoint scan_stops (st : scan_state) (s : string) : bool :=
  match s with
  | EmptyString => false
  | String ch rest =>
      let st' := scan_step st ch in
      if balanced st' then true else scan_stops st' rest
  end.

(** The loop of [_stop_at_function]: the index at which it breaks, counted
    from [i]. *)
Fixpoint break_index (st : scan_state) (s : string) (i : nat) : option nat :=
  match s with
  | EmptyString => None
  | String ch rest =>
      let st' := scan_step st ch in
      if balanced st' then Some i else break_index st' rest (S i)
  end.

(** [s[:n]] and [s[n:]] for [0 <= n]. *)
Fixpoint take_str (n : nat) (s : string) : string :=
  match n, s with
  | S n', String ch rest => String ch (take_str n' rest)
  | _, _ => EmptyString
  end.

Fixpoint drop_str (n : nat) (s : string) : string :=
  match n, s with
  | S n', String _ rest => drop_str n' rest
  | _, _ => s
  end.

(** The value of [char_idx] after the loop: where it broke, else the last
    index, else the initial 0. *)
Definition final_char_idx (generation : string) : nat :=
  match break_index scan_init generation 0 with
  | Some i => i
  | None => (String.length generation - 1)%nat
  end.

Definition _stop_at_function (generation : string) : string :=
  let char_idx := final_char_idx generation in
  match char_idx with
  | O => generation
  | S _ => take_str (char_idx + 1) generation
  end.

(** [s.find(needle)], -1 when absent. *)
Fixpoint find (needle s : string) : Z :=
  if String.prefix needle s then 0
  else match s with
       | EmptyString => -1
       | String _ rest =>
           let i := find needle rest in
           if i =? -1 then -1 else i + 1
       end.

(** The loop of [_stop_at_stop_token]. *)
Fixpoint min_stop_index (decoded_string : string) (stop_tokens : list string)
    (min_so_far : Z) : Z :=
  match stop_tokens with
  | [] => min_so_far
  | stop_token :: rest =>
      let stop_index := find stop_token decoded_string in
      min_stop_index decoded_string rest
        (if negb (stop_index =? -1) && (stop_index <? min_so_far)
         then stop_index else min_so_far)
  end.

Definition _stop_at_stop_token (decoded_string : string) (stop_tokens : list string)
  : string :=
  take_str (Z.to_nat (min_stop_index decoded_string stop_tokens
                        (Z.of_nat (String.length decoded_string))))
           decoded_string.

(** [s.split(sep)] for a separator of any positive length: [skip] counts the
    characters of a matched separator still to pass over, [cur] is the piece
    being read, last character first. *)
Fixpoint split_go (sep s : string) (skip : nat) (cur : list ascii) : list string :=
  match s with
  | EmptyString => [String.string_of_list_ascii (rev cur)]
  | String ch rest =>
      match skip with
      | S k => split_go sep rest k cur
      | O =>
          if String.prefix sep s
          then String.string_of_list_ascii (rev cur)
               :: split_go sep rest (String.length sep - 1) []
          else split_go sep rest 0 (ch :: cur)
      end
  end.

(** [s.split(sep)]: [ValueError] on the empty separator. *)
Definition split (sep s : string) : result (list string) :=
  match sep with
  | EmptyString => Raise ValueError
  | _ => Ret (split_go sep s 0 [])
  end.

(** [self.mode] of [StreamStopUJBTestGen]. *)
Inductive mode : Type :=
| Complete
| Chat
| OtherMode.

(** [StreamStopUJBTestGen.check_stop] *)
Definition check_stop (function_signature : string) (m : mode) (generation : string)
  : result bool :=
  match m with
  | Complete =>
      Ret (scan_stops scan_init
             (function_signature +:+ "{" +:+ LF +:+ generation))
  | Chat =>
      if negb (contains function_signature generation) then Ret false
      else
        match split function_signature generation with
        | Raise e => Raise e
        | Ret pieces =>
            match index pieces 1 with
            | Raise e => Raise e
            | Ret piece => Ret (scan_stops scan_init piece)
            end
        end
  | OtherMode => Ret (scan_stops scan_init generation)
  end.

(** [postprocess_generation_complete], [prompt] being the task's
    [prompt_complete_with_comment]. *)
Definition postprocess_generation_complete (prompt generation : string) : string :=
  _stop_at_function (drop_str (String.length prompt) generation).

(** Equality of scan states up to [in_single_quote]. *)
Definition same_but_single_quote (a b : scan_state) : Prop :=
  block_count a = block_count b /\ in_block a = in_block b
  /\ in_double_quote a = in_double_quote b.

End Postprocess.

(** ** The estimator at a float [k], and the binomial of its docstring *)

Module EstimatorMore.
Import Estimator.

(** [math.comb(n, k)], by Pascal's rule. *)
Fixpoint comb (n k : nat) {struct n} : Z :=
  match k with
  | O => 1
  | S k' =>
      match n with
      | O => 0
      | S n' => comb n' k' + comb n' k
      end
  end.

(** [1.0 - k / np.arange(...)] at a float [k]. *)
Definition one_minus_over (k : Q) (i : Z) : Q := (1 - k / inject_Z i)%Q.

(** The body of [get_pass_at_k] when [k] is a float, as in the pass@t loop
    of [evaluate]. *)
Definition get_pass_at_k_float (n c : Z) (k : Q) : Q :=
  if negb (Qle_bool k (inject_Z (n - c))) then 1%Q
  else (1 - np_prod (map (one_minus_over k) (arange (n - c + 1) (n + 1))))%Q.

(** *** Float division

    [/] on two Python floats, or a float and an int below 2^53, is the
    exact quotient rounded to the nearest binary64 number, ties to even.
    The exponent is left unbounded here, which is the machine's rounding
    as long as the result lies in the normal range of binary64. *)

(** The integer nearest to a rational [x >= 0], ties to even. *)
Definition round_half_even (x : Q) : Z :=
  let lo := Qfloor x in
  match Qcompare (x - inject_Z lo) (1 # 2) with
  | Lt => lo
  | Gt => lo + 1
  | Eq => if Z.even lo then lo else lo + 1
  end.

(** For [x > 0]: scale [x] into [2^52, 2^53), round, scale back. *)
Definition round_pos (x : Q) : Q :=
  let e0 := Z.log2 (Qnum x) - Z.log2 (Zpos (Qden x)) - 52 in
  let e := if Qle_bool (inject_Z (2 ^ 52)) (x / 2 ^ e0) then e0 else e0 - 1 in
  (inject_Z (round_half_even (x / 2 ^ e)) * 2 ^ e)%Q.

Definition binary64 (x : Q) : Q :=
  match Qcompare x 0 with
  | Eq => 0%Q
  | Gt => round_pos x
  | Lt => (- round_pos (- x))%Q
  end.

Definition truediv (x y : Q) : Q := binary64 (x / y).

(** What one round of the pass@t loop (lines 249-252) does. *)
Inductive round : Type :=
| Skipped
| DivisionByZero
| Recorded (tk value : Q).

(** The round for budget [t]: the task is skipped when it used fewer than
    [t] tokens; otherwise [tk = t / (total_tokens / total)], both divisions
    in float arithmetic. *)
Definition pass_at_t (total count : Z) (total_tokens : Q) (t : Z) : round :=
  if negb (Qle_bool (inject_Z t) total_tokens) then Skipped
  else if total =? 0 then DivisionByZero
  else
    let mean := truediv total_tokens (inject_Z total) in
    if Qeq_bool mean 0 then DivisionByZero
    else
      let tk := truediv (inject_Z t) mean in
      Recorded tk (get_pass_at_k_float total count tk).

(** The budgets of line 249. *)
Definition token_budgets : list Z := [1000; 5000; 10000; 20000; 500000; 1000000].

End EstimatorMore.

(** ** The per-task summary of [CodeUJBTestGen.evaluate] *)

Module Summary.
Import Pipeline.

(** The counters of [example_detail] (lines 221-235). *)
Record counters : Type := {
  total : Z;
  pass_syntax_count : Z;
  pass_compile_count : Z;
  pass_trigger_count : Z;
  timed_out_count : Z
}.

Definition no_counts : counters :=
  {| total := 0; pass_syntax_count := 0; pass_compile_count := 0;
     pass_trigger_count := 0; timed_out_count := 0 |}.

(** One iteration of the loop over [bug_results] (lines 227-235). *)
Definition count_step (c : counters) (detail : Outcome) : counters :=
  {| total := total c + 1;
     pass_syntax_count :=
       if pass_syntax detail then pass_syntax_count c + 1 else pass_syntax_count c;
     pass_compile_count :=
       if pass_compile detail then pass_compile_count c + 1 else pass_compile_count c;
     pass_trigger_count :=
       if pass_trigger detail then pass_trigger_count c + 1 else pass_trigger_count c;
     timed_out_count :=
       if o_timed_out detail then timed_out_count c + 1 else timed_out_count c |}.

Definition count_details (bug_results : list Outcome) : counters :=
  fold_left count_step bug_results no_counts.

(** The number of outcomes of a list that satisfy [p]. *)
Definition count_if (p : Outcome -> bool) (l : list Outcome) : Z :=
  Z.of_nat (length (List.filter p l)).

(** The sample sizes of line 243. *)
Definition ks : list Z := [1; 5; 10; 20; 100].

(** Lines 243-245 for one stage: the [pass@k-<k>] entries that are written. *)
Definition pass_at_k_entries (total count : Z) : list (Z * Q) :=
  flat_map (fun k =>
              if total <? k then []
              else [(k, Estimator.get_pass_at_k total count k)])
           ks.

(** Kinds of effect. *)
Definition is_subprocess_run (ev : event) : bool :=
  match ev with SubprocessRun _ => true | _ => false end.

Definition is_popen (ev : event) : bool :=
  match ev with Popen _ _ => true | _ => false end.

End Summary.

(** ** Scoring in [code_ujb_mbpp.py] *)

Module Mbpp.
Import Py Estimator.

(** [np.mean] of a one-dimensional array; [None] stands for the nan that
    numpy returns on an empty array. *)
Definition np_mean (xs : list Q) : option Q :=
  match xs with
  | [] => None
  | _ :: _ => Some (fold_left Qplus xs 0 / inject_Z (Z.of_nat (length xs)))%Q
  end.

(** The first argument of [estimate_pass_at_k]: one [int] for all problems,
    or one count for each. *)
Inductive num_samples : Type :=
| OneInt (n : Z)
| Array (ns : list Z).

(** [estimate_pass_at_k]; [None] stands for the [AssertionError] raised when
    the two arrays differ in length. *)
Definition estimate_pass_at_k (samples : num_samples) (num_correct : list Z) (k : Z)
  : option (list Q) :=
  match samples with
  | OneInt n => Some (map (fun c => estimator n c k) num_correct)
  | Array ns =>
      if (length ns =? length num_correct)%nat
      then Some (map (fun nc => estimator (fst nc) (snd nc) k)
                     (combine ns num_correct))
      else None
  end.

Definition is_nil {A} (l : list A) : bool :=
  match l with [] => true | _ => false end.

(** The values of the [results] dictionary of [compute_code_eval]: for each
    task that has at least one candidate, the [passed] flags of its
    candidates.  [outcomes] lists, task by task, what [check_correctness]
    reports for each candidate. *)
Definition results_values (outcomes : list (list bool)) : list (list bool) :=
  List.filter (fun r => negb (is_nil r)) outcomes.

(** [total] and [correct] (lines 63-70). *)
Definition totals (outcomes : list (list bool)) : list Z :=
  map (fun passed => Z.of_nat (length passed)) (results_values outcomes).

Definition corrects (outcomes : list (list bool)) : list Z :=
  map (fun passed => Z.of_nat (length (List.filter id passed)))
      (results_values outcomes).

(** The [pass_at_k] dictionary of [compute_code_eval] (line 75), one entry
    for each [k] that is kept. *)
Definition compute_code_eval (outcomes : list (list bool)) (ks : list Z)
  : list (Z * option Q) :=
  flat_map (fun k =>
              if forallb (fun n => k <=? n) (totals outcomes)
              then match estimate_pass_at_k (Array (totals outcomes))
                                            (corrects outcomes) k with
                   | Some values => [(k, np_mean values)]
                   | None => []
                   end
              else [])
           ks.

(** [np.mean] of a Python list of floats of which some may be nan: nan as
    soon as one entry is. *)
Definition np_mean_nan (xs : list (option Q)) : option Q :=
  if forallb (fun x => match x with Some _ => true | None => false end) xs
  then np_mean (flat_map (fun x => match x with Some q => [q] | None => [] end) xs)
  else None.

(** The key [f"pass@{k}"]. *)
Definition key (k : Z) : string := "pass@" +:+ pretty k.

(** [item[k]] on a [pass_at_k] dictionary. *)
Fixpoint dict_getitem (k : Z) (item : list (Z * option Q)) : result (option Q) :=
  match item with
  | [] => Raise (KeyError (key k))
  | (k', v) :: rest => if k' =? k then Ret v else dict_getitem k rest
  end.

(** [[item[k] for item in all_results]] *)
Fixpoint column (k : Z) (all_results : list (list (Z * option Q)))
  : result (list (option Q)) :=
  match all_results with
  | [] => Ret []
  | item :: rest =>
      match dict_getitem k item with
      | Raise e => Raise e
      | Ret v =>
          match column k rest with
          | Raise e => Raise e
          | Ret vs => Ret (v :: vs)
          end
      end
  end.

(** The dictionary comprehension of [MBPP.evaluate] (line 261) over the keys
    of the first dictionary. *)
Fixpoint means (keys : list Z) (all_results : list (list (Z * option Q)))
  : result (list (Z * option Q)) :=
  match keys with
  | [] => Ret []
  | k :: rest =>
      match column k all_results with
      | Raise e => Raise e
      | Ret vs =>
          match means rest all_results with
          | Raise e => Raise e
          | Ret entries => Ret ((k, np_mean_nan vs) :: entries)
          end
      end
  end.

Definition evaluate_ks : list Z := [1; 5; 10; 20; 50; 100].

(** [MBPP.evaluate]: [generations] lists, task by task, what
    [check_correctness] reports for each of the task's outputs. *)
Definition evaluate (generations : list (list bool)) : result (list (Z * option Q)) :=
  let all_results :=
    map (fun gens => compute_code_eval [gens] evaluate_ks) generations in
  match all_results with
  | [] => Raise IndexError
  | first :: _ => means (map fst first) all_results
  end.

(** Whether the dictionary of a task with outputs [gens] has the key of [k]. *)
Definition reported (gens : list bool) (k : Z) : bool :=
  is_nil gens || (k <=? Z.of_nat (length gens)).

End Mbpp.

(** * Properties *)

(** ** Estimator *)

Section EstimatorFacts.
Import Estimator.

Lemma fold_left_Qmult_acc (xs : list Q) (a : Q) :
  (fold_left Qmult xs a == a * fold_left Qmult xs 1)%Q.
Proof.
  revert a. induction xs as [|x xs IH]; intros a; simpl.
  - ring.
  - rewrite (IH (a * x)%Q), (IH (1 * x)%Q). ring.
Qed.

Lemma np_prod_cons (x : Q) (xs : list Q) :
  (np_prod (x :: xs) == x * np_prod xs)%Q.
Proof.
  unfold np_prod. simpl. rewrite fold_left_Qmult_acc. ring.
Qed.

Lemma seqZ_succ (lo : Z) (len : nat) :
  seqZ lo (Z.of_nat (S len)) = lo :: seqZ (lo + 1) (Z.of_nat len).
Proof.
  rewrite seqZ_cons by lia. f_equal. f_equal; lia.
Qed.

Lemma np_prod_seqZ (f : Z -> Q) (lo : Z) (len : nat) :
  (np_prod (map f (seqZ lo (Z.of_nat len))) == big_prod f lo len)%Q.
Proof.
  revert lo. induction len as [|len IH]; intros lo.
  - reflexivity.
  - rewrite seqZ_succ. cbn [map big_prod]. rewrite np_prod_cons, IH. reflexivity.
Qed.

Lemma arange_window (n c : Z) :
  0 <= c -> arange (n - c + 1) (n + 1) = seqZ (n - c + 1) (Z.of_nat (Z.to_nat c)).
Proof.
  intros Hc. unfold arange. f_equal. lia.
Qed.

Lemma big_prod_split (f : Z -> Q) (lo : Z) (a b : nat) :
  (big_prod f lo (a + b) == big_prod f lo a * big_prod f (lo + Z.of_nat a) b)%Q.
Proof.
  revert lo. induction a as [|a IH]; intros lo.
  - cbn [big_prod Nat.add]. replace (lo + Z.of_nat 0) with lo by lia. ring.
  - cbn [big_prod Nat.add]. rewrite IH.
    replace (lo + 1 + Z.of_nat a) with (lo + Z.of_nat (S a)) by lia. ring.
Qed.

Lemma big_prod_unit_interval (f : Z -> Q) (lo : Z) (len : nat) :
  (forall i, lo <= i < lo + Z.of_nat len -> (0 <= f i <= 1)%Q) ->
  (0 <= big_prod f lo len <= 1)%Q.
Proof.
  revert lo. induction len as [|len IH]; intros lo Hf.
  - cbn. split; lra.
  - cbn [big_prod].
    assert (H0 : (0 <= f lo <= 1)%Q) by (apply Hf; lia).
    assert (H1 : (0 <= big_prod f (lo + 1) len <= 1)%Q) by (apply IH; intros; apply Hf; lia).
    split; nra.
Qed.

Lemma factor_unit_interval (k i : Z) :
  0 <= k <= i -> 0 < i -> (0 <= one_minus_k_over k i <= 1)%Q.
Proof.
  intros Hk Hi. unfold one_minus_k_over.
  assert (Hq : (0 < inject_Z i)%Q) by (change 0%Q with (inject_Z 0); rewrite <- Zlt_Qlt; exact Hi).
  assert (Hlo : (0 <= inject_Z k / inject_Z i)%Q).
  { apply Qle_shift_div_l; [exact Hq|]. rewrite Qmult_0_l.
    change 0%Q with (inject_Z 0). rewrite <- Zle_Qle. lia. }
  assert (Hhi : (inject_Z k / inject_Z i <= 1)%Q).
  { apply Qle_shift_div_r; [exact Hq|]. rewrite Qmult_1_l.
    rewrite <- Zle_Qle. lia. }
  split; lra.
Qed.

(** In the product branch the code computes one minus the product of the
    window. *)
Lemma get_pass_at_k_product (n c k : Z) :
  0 <= c -> k <= n - c ->
  (get_pass_at_k n c k
   == 1 - big_prod (one_minus_k_over k) (n - c + 1) (Z.to_nat c))%Q.
Proof.
  intros Hc Hk. unfold get_pass_at_k.
  destruct (Z.ltb_spec (n - c) k) as [?|_]; [lia|].
  rewrite arange_window by exact Hc. rewrite np_prod_seqZ. reflexivity.
Qed.

Lemma window_unit_interval (n c k : Z) :
  0 <= c -> 1 <= k -> k <= n - c ->
  (0 <= big_prod (one_minus_k_over k) (n - c + 1) (Z.to_nat c) <= 1)%Q.
Proof.
  intros Hc Hk Hnk. apply big_prod_unit_interval.
  intros i Hi. apply factor_unit_interval; lia.
Qed.

Lemma get_pass_at_k_unit_interval (n c k : Z) :
  0 <= c -> 1 <= k -> (0 <= get_pass_at_k n c k <= 1)%Q.
Proof.
  intros Hc Hk. destruct (Z.ltb_spec (n - c) k) as [Hlt|Hge].
  - unfold get_pass_at_k. apply Z.ltb_lt in Hlt. rewrite Hlt. split; lra.
  - rewrite get_pass_at_k_product by lia.
    pose proof (window_unit_interval n c k Hc Hk Hge). split; lra.
Qed.

End EstimatorFacts.

Section EstimatorClaims.
Import Estimator.

(** C1. For n >= 1, 0 <= c <= n and k >= 1, [get_pass_at_k n c k] is exactly 1
    when n - c < k and otherwise is 1 - Π_{i=n-c+1}^{n} (1 - k/i); hence it
    lies in [0,1], is 1 at c = n and is 0 at c = 0 with k <= n. The inner
    [estimator] of the sibling evaluators computes the same value. *)
Theorem get_pass_at_k_spec (n c k : Z) :
  1 <= n -> 0 <= c <= n -> 1 <= k ->
  (n - c < k -> get_pass_at_k n c k = 1%Q) /\
  (k <= n - c ->
   (get_pass_at_k n c k
    == 1 - big_prod (fun i => 1 - inject_Z k / inject_Z i) (n - c + 1) (Z.to_nat c))%Q) /\
  (0 <= get_pass_at_k n c k <= 1)%Q /\
  (c = n -> get_pass_at_k n c k = 1%Q) /\
  (c = 0 -> k <= n -> get_pass_at_k n c k = 0%Q) /\
  estimator n c k = get_pass_at_k n c k.
Proof.
  intros Hn Hc Hk. repeat split.
  - intros Hlt. unfold get_pass_at_k. apply Z.ltb_lt in Hlt. now rewrite Hlt.
  - intros Hge. apply get_pass_at_k_product; lia.
  - apply get_pass_at_k_unit_interval; lia.
  - apply get_pass_at_k_unit_interval; lia.
  - intros ->. unfold get_pass_at_k.
    destruct (Z.ltb_spec (n - n) k) as [_|?]; [reflexivity|lia].
  - intros -> Hkn. unfold get_pass_at_k, arange.
    destruct (Z.ltb_spec (n - 0) k) as [?|_]; [lia|].
    rewrite seqZ_nil by lia. reflexivity.
Qed.

Lemma get_pass_at_k_spec_witness :
  (5 - 1 < 5 -> get_pass_at_k 5 1 5 = 1%Q) /\
  (5 <= 5 - 1 ->
   (get_pass_at_k 5 1 5
    == 1 - big_prod (fun i => 1 - inject_Z 5 / inject_Z i) (5 - 1 + 1) (Z.to_nat 1))%Q) /\
  (0 <= get_pass_at_k 5 1 5 <= 1)%Q /\
  (1 = 5 -> get_pass_at_k 5 1 5 = 1%Q) /\
  (1 = 0 -> 5 <= 5 -> get_pass_at_k 5 1 5 = 0%Q) /\
  estimator 5 1 5 = get_pass_at_k 5 1 5.
Proof.
  apply (get_pass_at_k_spec 5 1 5); lia.
Defined.

(** The end-to-end figures of the specification: estimate(5,1,1) = 0.2 and
    estimate(5,1,5) = 1.0. *)
Example get_pass_at_k_5_1 :
  (get_pass_at_k 5 1 1 == 1 # 5)%Q /\ get_pass_at_k 5 1 5 = 1%Q.
Proof. split; reflexivity. Qed.

(** C9. For fixed n >= 1 and k >= 1, [get_pass_at_k n c k] does not decrease
    when c grows: 0 <= c1 <= c2 <= n gives
    get_pass_at_k n c1 k <= get_pass_at_k n c2 k. *)
Theorem get_pass_at_k_monotone (n k c1 c2 : Z) :
  1 <= n -> 1 <= k -> 0 <= c1 <= c2 -> c2 <= n ->
  (get_pass_at_k n c1 k <= get_pass_at_k n c2 k)%Q.
Proof.
  intros Hn Hk Hc Hc2.
  destruct (Z.ltb_spec (n - c2) k) as [Hlt|Hge].
  - assert (E : get_pass_at_k n c2 k = 1%Q).
    { unfold get_pass_at_k. apply Z.ltb_lt in Hlt. now rewrite Hlt. }
    rewrite E. apply get_pass_at_k_unit_interval; lia.
  - rewrite (get_pass_at_k_product n c1 k), (get_pass_at_k_product n c2 k) by lia.
    replace (Z.to_nat c2) with (Z.to_nat (c2 - c1) + Z.to_nat c1)%nat by lia.
    rewrite big_prod_split.
    replace (n - c2 + 1 + Z.of_nat (Z.to_nat (c2 - c1))) with (n - c1 + 1) by lia.
    assert (Hd : (0 <= big_prod (one_minus_k_over k) (n - c2 + 1) (Z.to_nat (c2 - c1)) <= 1)%Q).
    { apply big_prod_unit_interval. intros i Hi. apply factor_unit_interval; lia. }
    assert (Hw : (0 <= big_prod (one_minus_k_over k) (n - c1 + 1) (Z.to_nat c1) <= 1)%Q).
    { apply window_unit_interval; lia. }
    nra.
Qed.

Lemma get_pass_at_k_monotone_witness :
  (get_pass_at_k 10 2 3 <= get_pass_at_k 10 4 3)%Q.
Proof.
  apply (get_pass_at_k_monotone 10 3 2 4); lia.
Defined.

End EstimatorClaims.

(** ** Splicing *)

Section SpliceFacts.
Import Py Pipeline SpecWording.

Lemma split_on_nonempty (sep : ascii) (s : string) : split_on sep s <> [].
Proof.
  destruct s as [|ch rest]; cbn; [discriminate|].
  destruct (Ascii.eqb ch sep); [discriminate|].
  destruct (split_on sep rest); discriminate.
Qed.

Lemma join_cons (sep x : string) (xs : list string) :
  xs <> [] -> join sep (x :: xs) = x +:+ sep +:+ join sep xs.
Proof. destruct xs; [congruence|reflexivity]. Qed.

Lemma join_split_on (sep : ascii) (s : string) :
  join (String sep EmptyString) (split_on sep s) = s.
Proof.
  induction s as [|ch rest IH]; [reflexivity|].
  cbn [split_on]. destruct (Ascii.eqb_spec ch sep) as [->|Hne].
  - rewrite join_cons by apply split_on_nonempty. rewrite IH. reflexivity.
  - pose proof (split_on_nonempty sep rest) as Hnil.
    destruct (split_on sep rest) as [|w ws]; [congruence|].
    destruct ws as [|w' ws].
    + cbn in *. congruence.
    + rewrite join_cons by discriminate. rewrite join_cons in IH by discriminate.
      cbn. rewrite <- IH. reflexivity.
Qed.

Lemma split_on_pieces_free (sep : ascii) (s : string) :
  Forall (fun x => mem_char sep x = false) (split_on sep s).
Proof.
  induction s as [|ch rest IH]; cbn [split_on].
  - repeat constructor.
  - destruct (Ascii.eqb ch sep) eqn:E.
    + constructor; [reflexivity|exact IH].
    + destruct (split_on sep rest) as [|w ws].
      * repeat constructor. cbn [mem_char]. now rewrite E.
      * inversion IH; subst. constructor; [|assumption].
        cbn [mem_char]. rewrite E. assumption.
Qed.

Lemma split_on_free (sep : ascii) (s : string) :
  mem_char sep s = false -> split_on sep s = [s].
Proof.
  induction s as [|ch rest IH]; [reflexivity|].
  cbn [split_on mem_char]. intros H. apply orb_false_iff in H as [E H].
  rewrite E, (IH H). reflexivity.
Qed.

Lemma split_on_glue (sep : ascii) (a b : string) :
  mem_char sep a = false ->
  split_on sep (a +:+ String sep b) = a :: split_on sep b.
Proof.
  induction a as [|ch rest IH].
  - intros _. change (EmptyString +:+ String sep b) with (String sep b).
    cbn [split_on]. now rewrite Ascii.eqb_refl.
  - change (String ch rest +:+ String sep b) with (String ch (rest +:+ String sep b)).
    cbn [split_on mem_char]. intros H. apply orb_false_iff in H as [E H].
    rewrite E, (IH H). reflexivity.
Qed.

Lemma split_on_join (sep : ascii) (l : list string) :
  l <> [] -> Forall (fun x => mem_char sep x = false) l ->
  split_on sep (join (String sep EmptyString) l) = l.
Proof.
  induction l as [|x xs IH]; [congruence|].
  intros _ Hall. inversion Hall as [|? ? Hx Hxs]; subst.
  destruct xs as [|y ys].
  - cbn. now apply split_on_free.
  - rewrite join_cons by discriminate.
    change (x +:+ String sep EmptyString +:+ join (String sep EmptyString) (y :: ys))
      with (x +:+ String sep (join (String sep EmptyString) (y :: ys))).
    rewrite split_on_glue by assumption.
    rewrite IH; [reflexivity|discriminate|assumption].
Qed.

Lemma norm_index_in_range (len : nat) (i : Z) :
  0 <= i <= Z.of_nat len -> norm_index len i = Z.to_nat i.
Proof.
  intros H. unfold norm_index.
  destruct (Z.ltb_spec i 0); [lia|]. f_equal. lia.
Qed.

(** What [validate_all_patches] writes back, as a list of lines. *)
Lemma split_on_splice (source patch : string) (start end_ : Z) :
  split_on nl (splice source patch start end_)
  = slice_to (split_on nl source) start ++ split_on nl patch
    ++ slice_from (split_on nl source) (end_ + 1).
Proof.
  unfold splice, LF. apply split_on_join.
  - intros H. apply app_eq_nil in H as [_ H]. apply app_eq_nil in H as [H _].
    now apply split_on_nonempty in H.
  - unfold slice_to, slice_from. rewrite !Forall_app. repeat split.
    + apply Forall_take, split_on_pieces_free.
    + apply split_on_pieces_free.
    + apply Forall_drop, split_on_pieces_free.
Qed.

End SpliceFacts.

Section SpliceClaims.
Import Py Pipeline SpecWording.

(** C7 (amended). Splicing replaces exactly the closed line range
    [start, end] (both bounds included, counted from 0) of the task's source
    with the candidate's lines: for a span with
    0 <= start <= end < number of source lines, the spliced text is the
    lines before [start], then the candidate's lines, then the lines after
    [end], and reading back the candidate's position gives the candidate
    verbatim. *)
Theorem splice_closed_range_roundtrip (source patch : string) (start end_ : Z) :
  0 <= start <= end_ -> end_ < Z.of_nat (length (split_on nl source)) ->
  let src := split_on nl source in
  let cand := split_on nl patch in
  let pre := take (Z.to_nat start) src in
  let post := drop (Z.to_nat end_ + 1) src in
  splice source patch start end_ = join LF (pre ++ cand ++ post)
  /\ split_on nl (splice source patch start end_) = pre ++ cand ++ post
  /\ length pre = Z.to_nat start
  /\ (length post + (Z.to_nat end_ + 1) = length src)%nat
  /\ extract (splice source patch start end_) start (length cand) = patch.
Proof.
  intros Hse Hend src cand pre post.
  assert (Eto : slice_to src start = pre).
  { unfold slice_to, pre. rewrite norm_index_in_range by (subst src; lia). reflexivity. }
  assert (Efrom : slice_from src (end_ + 1) = post).
  { unfold slice_from, post. rewrite norm_index_in_range by (subst src; lia).
    f_equal. lia. }
  assert (Hpre : length pre = Z.to_nat start).
  { unfold pre. rewrite length_take. subst src. lia. }
  assert (Hlines : split_on nl (splice source patch start end_) = pre ++ cand ++ post).
  { rewrite split_on_splice. fold src cand. now rewrite Eto, Efrom. }
  split; [|split; [|split; [|split]]].
  - unfold splice. fold src cand. now rewrite Eto, Efrom.
  - exact Hlines.
  - exact Hpre.
  - unfold post. rewrite length_drop. subst src. lia.
  - unfold extract, slice. rewrite Hlines.
    rewrite !norm_index_in_range by (rewrite !length_app; lia).
    replace (Z.to_nat start) with (length pre) by exact Hpre.
    rewrite drop_app_length.
    replace (Z.to_nat (start + Z.of_nat (length cand)) - length pre)%nat
      with (length cand) by lia.
    rewrite take_app_length. apply join_split_on.
Qed.

Lemma splice_closed_range_roundtrip_witness :
  extract (splice ("a" +:+ LF +:+ "b" +:+ LF +:+ "c") ("P" +:+ LF +:+ "Q") 1 1)
          1 (length (split_on nl ("P" +:+ LF +:+ "Q")))
  = "P" +:+ LF +:+ "Q".
Proof.
  apply (splice_closed_range_roundtrip
           ("a" +:+ LF +:+ "b" +:+ LF +:+ "c") ("P" +:+ LF +:+ "Q") 1 1).
  - lia.
  - vm_compute. reflexivity.
Defined.

(** C7 as worded fails: with the half-open range [start, end) line [end]
    would stay, while the code drops it.  Source lines a, b, c with
    start = end = 1 and candidate P give a, P, c. *)
Lemma splice_is_not_half_open :
  splice ("a" +:+ LF +:+ "b" +:+ LF +:+ "c") "P" 1 1
    = "a" +:+ LF +:+ "P" +:+ LF +:+ "c"
  /\ splice_half_open ("a" +:+ LF +:+ "b" +:+ LF +:+ "c") "P" 1 1
    = "a" +:+ LF +:+ "P" +:+ LF +:+ "b" +:+ LF +:+ "c"
  /\ splice ("a" +:+ LF +:+ "b" +:+ LF +:+ "c") "P" 1 1
     <> splice_half_open ("a" +:+ LF +:+ "b" +:+ LF +:+ "c") "P" 1 1.
Proof.
  split; [reflexivity|]. split; [reflexivity|]. discriminate.
Qed.

End SpliceClaims.

(** ** The stages of [run_d4j_test] *)

Section PipelineFacts.
Import Py Pipeline.

Variable w : World.

Ltac run_step :=
  cbn -[test_cmd coverage_cmd String.append coverage_stage path_join].

Lemma index_head {A} (x : A) (xs : list A) : index (x :: xs) 0 = Ret x.
Proof. reflexivity. Qed.

Lemma run_syntax_error (source : string) (tms : list string) (b : string)
    (cls : list string) :
  javalang_parses w source = false ->
  run_d4j_test w source tms b cls
  = ([], Ret {| compile_fail := true; timed_out := false; bugg := true;
                line_coverage := 0; condition_coverage := 0;
                syntax_error := true; lines_coverage_info := [] |}).
Proof. intros H. unfold run_d4j_test. now rewrite H. Qed.

Lemma run_no_testmethod (source b : string) (cls : list string) :
  javalang_parses w source = true ->
  run_d4j_test w source [] b cls = ([], Raise IndexError).
Proof. intros H. unfold run_d4j_test. now rewrite H. Qed.

Lemma run_exit_nonzero (source t b : string) (ts cls : list string) (code : Z) :
  javalang_parses w source = true ->
  popen w (test_cmd ("/tmp/" +:+ b) t) 120 = ExitNonZero code ->
  run_d4j_test w source (t :: ts) b cls
  = ([Popen (test_cmd ("/tmp/" +:+ b) t) 120], Ret (failed_result true false)).
Proof.
  intros Hp He. unfold run_d4j_test, build_loop. rewrite Hp, index_head. run_step.
  rewrite He. reflexivity.
Qed.

Lemma run_deadline (source t b : string) (ts cls : list string) :
  javalang_parses w source = true ->
  popen w (test_cmd ("/tmp/" +:+ b) t) 120 = DeadlinePassed ->
  run_d4j_test w source (t :: ts) b cls
  = ([Popen (test_cmd ("/tmp/" +:+ b) t) 120; Killpg (test_cmd ("/tmp/" +:+ b) t)],
     Ret (failed_result false true)).
Proof.
  intros Hp He. unfold run_d4j_test, build_loop. rewrite Hp, index_head. run_step.
  rewrite He. reflexivity.
Qed.

Lemma run_no_marker (source t b : string) (ts cls out : list string) :
  javalang_parses w source = true ->
  popen w (test_cmd ("/tmp/" +:+ b) t) 120 = ExitZero out ->
  trigger_bugg out = true ->
  run_d4j_test w source (t :: ts) b cls
  = ([Popen (test_cmd ("/tmp/" +:+ b) t) 120], Ret (failed_result false false)).
Proof.
  intros Hp He Hb. unfold run_d4j_test, build_loop. rewrite Hp, index_head. run_step.
  rewrite He. run_step. rewrite Hb. reflexivity.
Qed.

Lemma run_marker (source t b : string) (ts cls out : list string) :
  javalang_parses w source = true ->
  popen w (test_cmd ("/tmp/" +:+ b) t) 120 = ExitZero out ->
  trigger_bugg out = false ->
  run_d4j_test w source (t :: ts) b cls
  = (Popen (test_cmd ("/tmp/" +:+ b) t) 120
       :: fst (coverage_stage w ("/tmp/" +:+ b) t cls),
     match snd (coverage_stage w ("/tmp/" +:+ b) t cls) with
     | Ret (bugg, lc, cc, info) =>
         Ret {| compile_fail := false; timed_out := false;
                bugg := bugg || Qis_zero lc;
                line_coverage := lc; condition_coverage := cc;
                syntax_error := false; lines_coverage_info := info |}
     | Raise e => Raise e
     end).
Proof.
  intros Hp He Hb. unfold run_d4j_test, build_loop. rewrite Hp, index_head. run_step.
  rewrite He. run_step. rewrite Hb. run_step.
  destruct (coverage_stage w ("/tmp/" +:+ b) t cls) as [tr [[[[bg lc] cc] info]|e]];
    run_step; rewrite ?app_nil_r; reflexivity.
Qed.

Lemma read_coverage_trace (workdir : string) (out : list string) :
  fst (read_coverage w workdir out) = [].
Proof.
  unfold read_coverage. destruct out as [|l ls]; [reflexivity|].
  destruct (index (l :: ls) (-2)) as [l2|e]; [|reflexivity].
  run_step.
  destruct (contains "Line coverage:" l2); run_step;
    [destruct (read_percent w l2) as [lc|e]; run_step; [|reflexivity]|];
    (destruct (index (l :: ls) (-1)) as [l1|e]; run_step; [|reflexivity]);
    (destruct (contains "Condition coverage:" l1); run_step;
     [destruct (read_percent w l1) as [cc|e]; run_step; [|reflexivity]|]);
    destruct (analysis_coverage w workdir); reflexivity.
Qed.

Lemma coverage_stage_unfold (workdir t : string) (cls : list string) :
  coverage_stage w workdir t cls =
  match popen w (coverage_cmd workdir t) 180 with
  | ExitZero out =>
      ([increment_event workdir cls; Popen (coverage_cmd workdir t) 180],
       match snd (read_coverage w workdir out) with
       | Ret (lc, cc, info) => Ret (false, lc, cc, info)
       | Raise e => Raise e
       end)
  | ExitNonZero _ =>
      ([increment_event workdir cls; Popen (coverage_cmd workdir t) 180],
       Ret (true, 0%Q, 0%Q, []))
  | DeadlinePassed =>
      ([increment_event workdir cls; Popen (coverage_cmd workdir t) 180;
        Killpg (coverage_cmd workdir t)],
       Ret (true, 0%Q, 0%Q, []))
  end.
Proof.
  unfold coverage_stage, coverage_loop.
  destruct (popen w (coverage_cmd workdir t) 180) as [out|code|]; try reflexivity.
  pose proof (read_coverage_trace workdir out) as Htr.
  cbn -[coverage_cmd read_coverage increment_event].
  destruct (read_coverage w workdir out) as [tr [[[lc cc] info]|e]];
    cbn in Htr; subst tr; reflexivity.
Qed.

(** The trial in terms of [run_d4j_test]. *)
Lemma validate_unfold (rnd : string) (item : Item) :
  let folder := tmp_folder rnd item in
  let spliced := splice (source item) (patch item) (start item) (end_ item) in
  let run := run_d4j_test w spliced (testmethods item) folder (be_test_classes item) in
  validate_all_patches w rnd item =
  match snd run with
  | Ret r =>
      ([rm_event folder; checkout_event item folder; save_event item folder spliced]
         ++ fst run ++ [rm_event folder],
       Ret (outcome_of item r))
  | Raise e =>
      ([rm_event folder; checkout_event item folder; save_event item folder spliced]
         ++ fst run,
       Raise e)
  end.
Proof.
  intros folder spliced run. unfold validate_all_patches. fold folder spliced run.
  destruct run as [tr [r|e]];
    cbn -[rm_event checkout_event save_event outcome_of]; reflexivity.
Qed.

End PipelineFacts.

(** ** Claims about the stages *)

Section StageClaims.
Import Py Pipeline Sample.

Lemma Qis_zero_false (q : Q) : Qis_zero q = false -> ~ (q == 0)%Q.
Proof.
  unfold Qis_zero. intros H E. apply Qeq_bool_iff in E. congruence.
Qed.

(** What a trial that reports [pass_trigger = true] went through. *)
Lemma pass_trigger_inversion (w : World) (rnd : string) (item : Item)
    (tr : list event) (o : Outcome) :
  validate_all_patches w rnd item = (tr, Ret o) ->
  pass_trigger o = true ->
  exists t ts test_out cov_out,
    testmethods item = t :: ts /\
    popen w (test_cmd ("/tmp/" +:+ tmp_folder rnd item) t) 120 = ExitZero test_out /\
    last test_out = Some marker /\
    popen w (coverage_cmd ("/tmp/" +:+ tmp_folder rnd item) t) 180 = ExitZero cov_out /\
    In (Popen (coverage_cmd ("/tmp/" +:+ tmp_folder rnd item) t) 180) tr /\
    Qis_zero (o_line_coverage o) = false.
Proof.
  intros Hrun Hpass. rewrite validate_unfold in Hrun. cbv zeta in Hrun.
  set (folder := tmp_folder rnd item) in *.
  set (spliced := splice (source item) (patch item) (start item) (end_ item)) in *.
  destruct (javalang_parses w spliced) eqn:Hparse.
  2:{ rewrite (run_syntax_error w _ _ _ _ Hparse) in Hrun. cbn in Hrun.
      injection Hrun as <- <-. discriminate. }
  destruct (testmethods item) as [|t ts] eqn:Htms.
  { rewrite (run_no_testmethod w _ _ _ Hparse) in Hrun. discriminate. }
  destruct (popen w (test_cmd ("/tmp/" +:+ folder) t) 120) as [out|code|] eqn:Htest.
  2:{ rewrite (run_exit_nonzero w _ _ _ _ _ _ Hparse Htest) in Hrun. cbn in Hrun.
      injection Hrun as <- <-. discriminate. }
  2:{ rewrite (run_deadline w _ _ _ _ _ Hparse Htest) in Hrun. cbn in Hrun.
      injection Hrun as <- <-. discriminate. }
  destruct (trigger_bugg out) eqn:Htrig.
  { rewrite (run_no_marker w _ _ _ _ _ _ Hparse Htest Htrig) in Hrun. cbn in Hrun.
    injection Hrun as <- <-. discriminate. }
  rewrite (run_marker w _ _ _ _ _ _ Hparse Htest Htrig) in Hrun.
  rewrite coverage_stage_unfold in Hrun.
  assert (Hlast : last out = Some marker).
  { unfold trigger_bugg in Htrig. destruct (last out) as [l|]; [|discriminate].
    apply negb_false_iff, String.eqb_eq in Htrig. now subst. }
  destruct (popen w (coverage_cmd ("/tmp/" +:+ folder) t) 180) as [cov|code|] eqn:Hcov.
  - exists t, ts, out, cov. cbn [fst snd] in Hrun.
    destruct (snd (read_coverage w ("/tmp/" +:+ folder) cov)) as [[[lc cc] info]|e];
      [|discriminate].
    injection Hrun as <- <-. cbn in Hpass. apply negb_true_iff in Hpass.
    repeat split; try reflexivity; try assumption.
    cbn. auto 10.
  - cbn in Hrun. injection Hrun as <- <-. discriminate.
  - cbn in Hrun. injection Hrun as <- <-. discriminate.
Qed.

(** C2. After the coverage stage a trial reports [pass_trigger = true] only
    if the coverage command went through its clean-exit branch within its
    180 s budget and the measured line coverage is strictly positive; a
    non-zero exit or a timeout of the coverage command and a measured line
    coverage of 0 all give [pass_trigger = false]. The code tests the
    coverage against 0, which for a measured (non-negative) coverage is the
    test for a strictly positive one. *)
Theorem pass_trigger_requires_coverage (w : World) (rnd : string) (item : Item)
    (tr : list event) (o : Outcome) :
  validate_all_patches w rnd item = (tr, Ret o) ->
  (0 <= o_line_coverage o)%Q ->
  let cmd := coverage_cmd ("/tmp/" +:+ tmp_folder rnd item)
                          (hd EmptyString (testmethods item)) in
  (pass_trigger o = true ->
     (exists out, popen w cmd 180 = ExitZero out) /\
     In (Popen cmd 180) tr /\
     ~ (o_line_coverage o == 0)%Q /\
     (0 < o_line_coverage o)%Q) /\
  ((exists code, popen w cmd 180 = ExitNonZero code) -> pass_trigger o = false) /\
  (popen w cmd 180 = DeadlinePassed -> pass_trigger o = false) /\
  ((o_line_coverage o == 0)%Q -> pass_trigger o = false).
Proof.
  intros Hrun Hnonneg cmd.
  assert (Hinv : pass_trigger o = true ->
            (exists out, popen w cmd 180 = ExitZero out) /\
            In (Popen cmd 180) tr /\ ~ (o_line_coverage o == 0)%Q).
  { intros Hpass.
    destruct (pass_trigger_inversion w rnd item tr o Hrun Hpass)
      as (t & ts & tout & cout & Htms & _ & _ & Hcov & Hin & Hz).
    subst cmd. rewrite Htms. cbn [hd].
    split; [eauto|]. split; [exact Hin|]. now apply Qis_zero_false. }
  split; [|split; [|split]].
  - intros Hpass. destruct (Hinv Hpass) as (Hex & Hin & Hne).
    repeat split; try assumption. lra.
  - intros [code Hcode]. destruct (pass_trigger o); [|reflexivity].
    destruct (Hinv eq_refl) as ([out Hout] & _). congruence.
  - intros Hdead. destruct (pass_trigger o); [|reflexivity].
    destruct (Hinv eq_refl) as ([out Hout] & _). congruence.
  - intros Hzero. destruct (pass_trigger o); [|reflexivity].
    destruct (Hinv eq_refl) as (_ & _ & Hne). contradiction.
Qed.

Lemma pass_trigger_requires_coverage_witness :
  match validate_all_patches world_pass "AbCd1234" item with
  | (_, Ret o) => pass_trigger o = true /\ (0 < o_line_coverage o)%Q
  | (_, Raise _) => False
  end.
Proof.
  destruct (validate_all_patches world_pass "AbCd1234" item) as [tr [o|e]] eqn:Hrun.
  - assert (Hp : pass_trigger o = true)
      by (vm_compute in Hrun; injection Hrun as _ <-; reflexivity).
    assert (Hn : (0 <= o_line_coverage o)%Q)
      by (vm_compute in Hrun; injection Hrun as _ <-; vm_compute; discriminate).
    split; [exact Hp|].
    exact (proj2 (proj2 (proj2 (proj1
             (pass_trigger_requires_coverage world_pass "AbCd1234" item tr o Hrun Hn)
             Hp)))).
  - vm_compute in Hrun. discriminate.
Defined.

(** The override itself: the trigger test passes, coverage is measured as
    0.0 %, and the trial is reported as failed. *)
Example zero_coverage_is_demoted :
  exists tr o,
    validate_all_patches world_zero_coverage "AbCd1234" item = (tr, Ret o) /\
    (o_line_coverage o == 0)%Q /\ pass_trigger o = false /\ pass_compile o = true.
Proof.
  eexists _, _. split; [vm_compute; reflexivity|]. repeat split.
Qed.

(** C4. On a clean exit of the build/run step the trial is classified
    trigger-success exactly when the last line of the captured stdout is the
    marker line "Failing tests: 0" (with its line terminator, as
    [readlines] returns it): the flag computed at lines 393-397 is cleared
    iff that holds, the coverage stage is entered iff it is cleared, and any
    other last line, or no output at all, ends the trial with
    [bugg = True]. *)
Theorem trigger_success_iff_marker (w : World) (source t b : string)
    (ts cls out : list string) :
  javalang_parses w source = true ->
  popen w (test_cmd ("/tmp/" +:+ b) t) 120 = ExitZero out ->
  (trigger_bugg out = false <-> last out = Some ("Failing tests: 0" +:+ LF)) /\
  (trigger_bugg out = false <->
   In (Popen (coverage_cmd ("/tmp/" +:+ b) t) 180)
      (fst (run_d4j_test w source (t :: ts) b cls))) /\
  (last out <> Some ("Failing tests: 0" +:+ LF) ->
   run_d4j_test w source (t :: ts) b cls
   = ([Popen (test_cmd ("/tmp/" +:+ b) t) 120], Ret (failed_result false false))) /\
  (out = [] -> snd (run_d4j_test w source (t :: ts) b cls)
               = Ret (failed_result false false)) /\
  (forall tr r, run_d4j_test w source (t :: ts) b cls = (tr, Ret r) ->
                bugg r = false -> last out = Some ("Failing tests: 0" +:+ LF)).
Proof.
  intros Hparse Htest.
  assert (Hiff : trigger_bugg out = false <-> last out = Some marker).
  { unfold trigger_bugg. destruct (last out) as [l|].
    - rewrite negb_false_iff, String.eqb_eq. split; congruence.
    - split; discriminate. }
  assert (Hfail : last out <> Some marker ->
            run_d4j_test w source (t :: ts) b cls
            = ([Popen (test_cmd ("/tmp/" +:+ b) t) 120], Ret (failed_result false false))).
  { intros Hne. apply (run_no_marker w source t b ts cls out); [assumption..|].
    destruct (trigger_bugg out); [reflexivity|]. exfalso. now apply Hne, Hiff. }
  split; [exact Hiff|]. split; [|split; [exact Hfail|split]].
  - split.
    + intros Htrig. rewrite (run_marker w _ _ _ _ _ _ Hparse Htest Htrig).
      rewrite coverage_stage_unfold.
      destruct (popen w (coverage_cmd ("/tmp/" +:+ b) t) 180); cbn; auto.
    + intros Hin. destruct (trigger_bugg out) eqn:Htrig; [|reflexivity].
      rewrite (run_no_marker w _ _ _ _ _ _ Hparse Htest Htrig) in Hin.
      cbn in Hin. destruct Hin as [Heq|[]]. discriminate.
  - intros ->. rewrite Hfail; [reflexivity|discriminate].
  - intros tr r Hrun Hb.
    destruct (trigger_bugg out) eqn:Htrig; [|now apply Hiff].
    rewrite (run_no_marker w _ _ _ _ _ _ Hparse Htest Htrig) in Hrun.
    injection Hrun as <- <-. discriminate.
Qed.

(** The comparison is with the whole line: a last line without its
    terminator is not the marker. *)
Example unterminated_marker_is_failure :
  trigger_bugg ["Failing tests: 0"] = true
  /\ trigger_bugg ["Failing tests: 0" +:+ LF] = false
  /\ trigger_bugg ["Failing tests: 1" +:+ LF] = true
  /\ trigger_bugg [] = true.
Proof. repeat split. Qed.

Lemma trigger_success_iff_marker_witness :
  trigger_bugg test_passes = false <-> last test_passes = Some ("Failing tests: 0" +:+ LF).
Proof.
  assert (Hp : javalang_parses world_pass "a" = true) by reflexivity.
  assert (Ht : popen world_pass
                 (test_cmd ("/tmp/" +:+ "Lang-1-AbCd1234") "org.T::test1") 120
               = ExitZero test_passes) by (vm_compute; reflexivity).
  exact (proj1 (trigger_success_iff_marker world_pass "a" "org.T::test1"
                  "Lang-1-AbCd1234" [] [] test_passes Hp Ht)).
Defined.

End StageClaims.

Section TrialClaims.
Import Py Pipeline Sample.

(** C5 (amended). When the spliced source does not parse, the trial returns
    without raising an Outcome with [pass_syntax], [pass_compile] and
    [pass_trigger] all false, zero line and condition coverage and no
    coverage record, and neither the test command nor the coverage command
    is launched. The workspace subprocesses of [validate_all_patches]
    (rm, defects4j checkout, rm) still run, since the check comes after the
    checkout. *)
Theorem syntax_error_short_circuit (w : World) (rnd : string) (item : Item) :
  javalang_parses w (splice (source item) (patch item) (start item) (end_ item))
  = false ->
  let folder := tmp_folder rnd item in
  let spliced := splice (source item) (patch item) (start item) (end_ item) in
  validate_all_patches w rnd item
  = ([rm_event folder; checkout_event item folder;
      save_event item folder spliced; rm_event folder],
     Ret {| o_idx := idx item; o_project := project item; o_bug_id := bug_id item;
            pass_syntax := false; pass_compile := false; pass_trigger := false;
            o_line_coverage := 0; o_condition_coverage := 0;
            o_timed_out := false; o_lines_coverage_info := [] |})
  /\ forall cmd limit, ~ In (Popen cmd limit) (fst (validate_all_patches w rnd item)).
Proof.
  intros Hparse folder spliced.
  assert (E : validate_all_patches w rnd item
              = ([rm_event folder; checkout_event item folder;
                  save_event item folder spliced; rm_event folder],
                 Ret {| o_idx := idx item; o_project := project item;
                        o_bug_id := bug_id item;
                        pass_syntax := false; pass_compile := false;
                        pass_trigger := false;
                        o_line_coverage := 0; o_condition_coverage := 0;
                        o_timed_out := false; o_lines_coverage_info := [] |})).
  { rewrite validate_unfold. cbv zeta.
    rewrite (run_syntax_error w _ _ _ _ Hparse). reflexivity. }
  split; [exact E|].
  intros cmd limit. rewrite E. cbn [fst In].
  unfold rm_event, checkout_event, save_event. intuition discriminate.
Qed.

Lemma syntax_error_short_circuit_witness :
  snd (validate_all_patches world_syntax_error "AbCd1234" item)
  = Ret {| o_idx := 7; o_project := "Lang"; o_bug_id := 1;
           pass_syntax := false; pass_compile := false; pass_trigger := false;
           o_line_coverage := 0; o_condition_coverage := 0;
           o_timed_out := false; o_lines_coverage_info := [] |}.
Proof.
  rewrite (proj1 (syntax_error_short_circuit world_syntax_error "AbCd1234" item
                    eq_refl)).
  reflexivity.
Defined.

(** C5 as worded fails: a trial whose spliced source does not parse still
    launches three subprocesses. *)
Lemma syntax_error_still_launches_subprocesses :
  javalang_parses world_syntax_error
    (splice (source item) (patch item) (start item) (end_ item)) = false
  /\ List.filter launches_subprocess
       (fst (validate_all_patches world_syntax_error "AbCd1234" item))
     = [SubprocessRun ["rm"; "-rf"; "/tmp/Lang-1-AbCd1234"];
        SubprocessRun ["defects4j"; "checkout"; "-p"; "Lang"; "-v"; "1f";
                       "-w"; "/tmp/Lang-1-AbCd1234"];
        SubprocessRun ["rm"; "-rf"; "/tmp/Lang-1-AbCd1234"]].
Proof. split; vm_compute; reflexivity. Qed.

(** C3 (amended). When the build/run command is still running after 120 s,
    the trial returns an Outcome with [timed_out = true] and
    [pass_trigger = false], zero coverage and no coverage record, and the
    coverage command is not launched; [pass_compile] stays true, because
    [compile_fail] is only set on a non-zero exit. *)
Theorem build_timeout_outcome (w : World) (rnd : string) (item : Item)
    (t : string) (ts : list string) :
  javalang_parses w (splice (source item) (patch item) (start item) (end_ item))
  = true ->
  testmethods item = t :: ts ->
  popen w (test_cmd ("/tmp/" +:+ tmp_folder rnd item) t) 120 = DeadlinePassed ->
  let folder := tmp_folder rnd item in
  let spliced := splice (source item) (patch item) (start item) (end_ item) in
  validate_all_patches w rnd item
  = ([rm_event folder; checkout_event item folder; save_event item folder spliced;
      Popen (test_cmd ("/tmp/" +:+ folder) t) 120;
      Killpg (test_cmd ("/tmp/" +:+ folder) t);
      rm_event folder],
     Ret {| o_idx := idx item; o_project := project item; o_bug_id := bug_id item;
            pass_syntax := true; pass_compile := true; pass_trigger := false;
            o_line_coverage := 0; o_condition_coverage := 0;
            o_timed_out := true; o_lines_coverage_info := [] |}).
Proof.
  intros Hparse Htms Hdead folder spliced.
  rewrite validate_unfold. cbv zeta. rewrite Htms.
  rewrite (run_deadline w _ _ _ _ _ Hparse Hdead). reflexivity.
Qed.

Lemma build_timeout_outcome_witness :
  snd (validate_all_patches world_hang "AbCd1234" item)
  = Ret {| o_idx := 7; o_project := "Lang"; o_bug_id := 1;
           pass_syntax := true; pass_compile := true; pass_trigger := false;
           o_line_coverage := 0; o_condition_coverage := 0;
           o_timed_out := true; o_lines_coverage_info := [] |}.
Proof.
  rewrite (build_timeout_outcome world_hang "AbCd1234" item
             "org.T::test1" ["org.T::test2"]); reflexivity.
Defined.

(** C3 as worded fails: the build/run command times out and the Outcome has
    [pass_compile = true]. *)
Lemma build_timeout_keeps_pass_compile :
  popen world_hang
    (test_cmd ("/tmp/" +:+ tmp_folder "AbCd1234" item) "org.T::test1") 120
  = DeadlinePassed
  /\ exists tr o,
       validate_all_patches world_hang "AbCd1234" item = (tr, Ret o)
       /\ o_timed_out o = true /\ pass_compile o = true /\ pass_compile o <> false.
Proof.
  split; [reflexivity|]. eexists _, _.
  split; [vm_compute; reflexivity|]. cbn. repeat split. discriminate.
Qed.

(** C10. Only [testmethods[0]] is used: two trigger-test lists with the same
    first element give the same trial, effects included, and
    [run_d4j_test] on a list is [run_d4j_test] on its first element alone. *)
Theorem only_first_testmethod (w : World) (rnd : string) (item : Item)
    (t : string) (ts1 ts2 : list string) :
  validate_all_patches w rnd (with_testmethods item (t :: ts1))
  = validate_all_patches w rnd (with_testmethods item (t :: ts2))
  /\ (forall source b cls,
        run_d4j_test w source (t :: ts1) b cls = run_d4j_test w source [t] b cls).
Proof.
  assert (Hrun : forall ts source b cls,
            run_d4j_test w source (t :: ts) b cls = run_d4j_test w source [t] b cls).
  { intros ts source b cls. unfold run_d4j_test.
    rewrite !index_head. reflexivity. }
  split; [|apply Hrun].
  unfold validate_all_patches, tmp_folder, with_testmethods.
  cbn [idx patch project bug_id testmethods source_dir start end_ location
       source be_test_classes].
  rewrite (Hrun ts1), (Hrun ts2). reflexivity.
Qed.

End TrialClaims.

(** ** The coverage parse and exceptions *)

Section CoverageParseFacts.
Import Py Pipeline WellFormed.

Variable w : World.

Lemma for_each_is_ret {A B} (f : A -> result (list B)) (ok : A -> bool)
    (xs : list A) :
  (forall x, is_ret (f x) = ok x) ->
  is_ret (for_each f xs) = forallb ok xs.
Proof.
  intros Hf. induction xs as [|x xs IH]; [reflexivity|].
  cbn [for_each forallb]. rewrite <- Hf, <- IH.
  destruct (f x); [|reflexivity]. destruct (for_each f xs); reflexivity.
Qed.

Lemma for_each_length {A B} (f : A -> result (list B)) (size : A -> nat)
    (xs : list A) (out : list B) :
  (forall x ys, f x = Ret ys -> length ys = size x) ->
  for_each f xs = Ret out ->
  length out = list_sum (map size xs).
Proof.
  intros Hf. revert out. induction xs as [|x xs IH]; intros out Hout.
  - cbn in Hout. injection Hout as <-. reflexivity.
  - cbn [for_each] in Hout. destruct (f x) as [ys|e] eqn:Hx; [|discriminate].
    destruct (for_each f xs) as [zs|e] eqn:Hxs; [|discriminate].
    injection Hout as <-. rewrite length_app. cbn [map list_sum].
    rewrite (Hf x ys Hx), (IH zs eq_refl). reflexivity.
Qed.

Lemma list_sum_ones {A} (xs : list A) :
  list_sum (map (fun _ => 1%nat) xs) = length xs.
Proof.
  induction xs as [|x xs IH]; [reflexivity|].
  simpl. f_equal. exact IH.
Qed.

Lemma line_record_is_ret (cname cfile : string) (l : Xml.element) :
  is_ret (line_record w cname cfile l) = line_ok w l.
Proof.
  unfold line_record, line_ok.
  destruct (getitem (Xml.attrib l) "number"); [|reflexivity].
  destruct (getitem (Xml.attrib l) "hits") as [hits|]; [|reflexivity].
  destruct (py_int w hits); reflexivity.
Qed.

Lemma line_record_length (cname cfile : string) (l : Xml.element)
    (ys : list cov_record) :
  line_record w cname cfile l = Ret ys -> length ys = 1%nat.
Proof.
  unfold line_record.
  destruct (getitem (Xml.attrib l) "number"); [|discriminate].
  destruct (getitem (Xml.attrib l) "hits") as [hits|]; [|discriminate].
  destruct (py_int w hits); [|discriminate].
  intros H. injection H as <-. reflexivity.
Qed.

Lemma class_records_is_ret (c : Xml.element) :
  is_ret (class_records w c) = class_ok w c.
Proof.
  unfold class_records, class_ok.
  destruct (getitem (Xml.attrib c) "name") as [cname|]; [|reflexivity].
  destruct (getitem (Xml.attrib c) "filename") as [cfile|]; [|reflexivity].
  cbn [is_ret andb]. apply for_each_is_ret. intros l. apply line_record_is_ret.
Qed.

Lemma class_records_length (c : Xml.element) (ys : list cov_record) :
  class_records w c = Ret ys -> length ys = length (Xml.findall "line" c).
Proof.
  unfold class_records.
  destruct (getitem (Xml.attrib c) "name") as [cname|]; [|discriminate].
  destruct (getitem (Xml.attrib c) "filename") as [cfile|]; [|discriminate].
  intros H.
  rewrite (for_each_length _ (fun _ => 1%nat) _ _ (line_record_length cname cfile) H).
  apply list_sum_ones.
Qed.

(** [analysis_coverage] returns exactly when the report is on disk and every
    entry the loops reach is well formed, and then with one record for each
    [<line>] visited. *)
Lemma analysis_coverage_returns (dir : string) :
  (is_ret (analysis_coverage w dir)
   = match coverage_xml w (path_join dir "coverage.xml") with
     | Xml.Document root => report_ok w root
     | _ => false
     end)
  /\ (forall root records,
        coverage_xml w (path_join dir "coverage.xml") = Xml.Document root ->
        analysis_coverage w dir = Ret records ->
        length records = lines_visited root).
Proof.
  unfold analysis_coverage. split.
  - destruct (coverage_xml w (path_join dir "coverage.xml")) as [| |root];
      [reflexivity|reflexivity|].
    unfold report_ok. apply for_each_is_ret. intros p.
    unfold package_records. apply for_each_is_ret, class_records_is_ret.
  - intros root records ->. unfold lines_visited.
    apply for_each_length. intros p ys. unfold package_records.
    apply for_each_length, class_records_length.
Qed.

Lemma read_percent_is_ret (label line : string) :
  (if contains label line then is_ret (read_percent w line) else true)
  = percent_ok w label line.
Proof.
  unfold percent_ok, read_percent.
  destruct (contains label line); [|reflexivity].
  destruct (py_float w (percent_field line)); reflexivity.
Qed.

(** [read_coverage] returns exactly on output that [coverage_output_ok]
    accepts. *)
Lemma read_coverage_is_ret (workdir : string) (out : list string) :
  is_ret (snd (read_coverage w workdir out)) = coverage_output_ok w workdir out.
Proof.
  unfold read_coverage, coverage_output_ok.
  destruct out as [|l ls]; [reflexivity|].
  destruct (index (l :: ls) (-2)) as [l2|e]; [|reflexivity].
  destruct (index (l :: ls) (-1)) as [l1|e].
  2:{ cbn. destruct (contains "Line coverage:" l2); [|reflexivity].
      destruct (read_percent w l2); reflexivity. }
  rewrite <- !read_percent_is_ret.
  rewrite <- (proj1 (analysis_coverage_returns workdir)).
  cbn -[analysis_coverage].
  destruct (contains "Line coverage:" l2);
    [destruct (read_percent w l2); cbn -[analysis_coverage]; [|reflexivity]|];
    (destruct (contains "Condition coverage:" l1);
     [destruct (read_percent w l1); cbn -[analysis_coverage]; [|reflexivity]|]);
    destruct (analysis_coverage w workdir); reflexivity.
Qed.

End CoverageParseFacts.

Section ExceptionClaims.
Import Py Pipeline WellFormed Sample.

(** C8 (amended). A trial may raise to the orchestrator instead of returning
    an Outcome. The one handler of the trial is the bare [except] around the
    Java parse: a source that does not parse gives the all-failed result of
    [run_d4j_test], with no effect. Nothing else is caught. The coverage
    parse has no tolerance of its own: on a missing report
    [analysis_coverage] raises [FileNotFoundError], on a file that is not
    well-formed XML it raises [ParseError], and on a document it returns
    exactly when every class and line entry reached carries the attributes
    read (with an integer [hits]), then with one record for each line entry
    reached, so that no entry is skipped. A trial whose source parses and
    whose trigger-test list is empty raises, and so does a trial whose
    trigger test passes and whose coverage command exits cleanly with
    output that is neither empty nor two lines with convertible percentages
    next to a well-formed report. *)
Theorem trial_outcome_or_exception (w : World) (rnd : string) (item : Item) :
  let workdir := "/tmp/" +:+ tmp_folder rnd item in
  let spliced := splice (source item) (patch item) (start item) (end_ item) in
  (forall src tms b cls,
     javalang_parses w src = false ->
     run_d4j_test w src tms b cls
     = ([], Ret {| compile_fail := true; timed_out := false; bugg := true;
                   line_coverage := 0; condition_coverage := 0;
                   syntax_error := true; lines_coverage_info := [] |}))
  /\ (coverage_xml w (path_join workdir "coverage.xml") = Xml.NoSuchFile ->
      analysis_coverage w workdir = Raise FileNotFoundError)
  /\ (coverage_xml w (path_join workdir "coverage.xml") = Xml.NotWellFormed ->
      analysis_coverage w workdir = Raise ParseError)
  /\ (forall root,
        coverage_xml w (path_join workdir "coverage.xml") = Xml.Document root ->
        is_ret (analysis_coverage w workdir) = report_ok w root
        /\ forall records,
             analysis_coverage w workdir = Ret records ->
             length records = lines_visited root)
  /\ (javalang_parses w spliced = true ->
      testmethods item = [] ->
      exists tr e, validate_all_patches w rnd item = (tr, Raise e))
  /\ (forall t ts test_out cov_out,
        javalang_parses w spliced = true ->
        testmethods item = t :: ts ->
        popen w (test_cmd workdir t) 120 = ExitZero test_out ->
        last test_out = Some marker ->
        popen w (coverage_cmd workdir t) 180 = ExitZero cov_out ->
        coverage_output_ok w workdir cov_out = false ->
        exists tr e, validate_all_patches w rnd item = (tr, Raise e)).
Proof.
  intros workdir spliced. split; [|split; [|split; [|split; [|split]]]].
  - intros src tms b cls Hparse. now apply run_syntax_error.
  - intros Hnone. unfold analysis_coverage. now rewrite Hnone.
  - intros Hbad. unfold analysis_coverage. now rewrite Hbad.
  - intros root Hroot.
    destruct (analysis_coverage_returns w workdir) as [Hret Hlen].
    rewrite Hroot in Hret. split; [exact Hret|].
    intros records. now apply Hlen.
  - intros Hparse Htms. rewrite validate_unfold. cbv zeta. fold spliced.
    rewrite Htms, (run_no_testmethod w _ _ _ Hparse). cbn [fst snd]. eauto.
  - intros t ts test_out cov_out Hparse Htms Htest Hlast Hc Hbad.
    rewrite validate_unfold. cbv zeta. fold spliced. rewrite Htms.
    assert (Htrig : trigger_bugg test_out = false).
    { unfold trigger_bugg. rewrite Hlast. now rewrite String.eqb_refl. }
    rewrite (run_marker w _ _ _ _ _ _ Hparse Htest Htrig).
    rewrite coverage_stage_unfold. fold workdir. rewrite Hc. cbn [fst snd].
    rewrite <- read_coverage_is_ret in Hbad.
    destruct (snd (read_coverage w workdir cov_out)) as [[[lc cc] info]|e];
      [discriminate|eauto].
Qed.

Lemma trial_outcome_or_exception_witness :
  exists tr e, validate_all_patches world_not_xml "AbCd1234" item = (tr, Raise e).
Proof.
  assert (Hparse : javalang_parses world_not_xml
                     (splice (source item) (patch item) (start item) (end_ item))
                   = true) by reflexivity.
  assert (Htms : testmethods item = "org.T::test1" :: ["org.T::test2"])
    by reflexivity.
  assert (Htest : popen world_not_xml
                    (test_cmd ("/tmp/" +:+ tmp_folder "AbCd1234" item) "org.T::test1") 120
                  = ExitZero test_passes) by (vm_compute; reflexivity).
  assert (Hlast : last test_passes = Some marker) by reflexivity.
  assert (Hcov : popen world_not_xml
                   (coverage_cmd ("/tmp/" +:+ tmp_folder "AbCd1234" item) "org.T::test1") 180
                 = ExitZero (coverage_lines "80.0")) by (vm_compute; reflexivity).
  assert (Hbad : coverage_output_ok world_not_xml
                   ("/tmp/" +:+ tmp_folder "AbCd1234" item) (coverage_lines "80.0")
                 = false) by (vm_compute; reflexivity).
  exact (proj2 (proj2 (proj2 (proj2 (proj2
           (trial_outcome_or_exception world_not_xml "AbCd1234" item)))))
           "org.T::test1" ["org.T::test2"] test_passes (coverage_lines "80.0")
           Hparse Htms Htest Hlast Hcov Hbad).
Defined.

(** C8 as worded fails: with the trigger test passing and the coverage
    command exiting cleanly, a missing report file makes the trial raise
    [FileNotFoundError], a report that is not well-formed XML makes it raise
    [ParseError], and a class entry without [filename] makes it raise
    [KeyError]; none yields an Outcome. *)
Lemma coverage_parse_errors_propagate :
  coverage_xml world_no_report
    (path_join ("/tmp/" +:+ tmp_folder "AbCd1234" item) "coverage.xml")
  = Xml.NoSuchFile
  /\ snd (validate_all_patches world_no_report "AbCd1234" item)
     = Raise FileNotFoundError
  /\ snd (validate_all_patches world_not_xml "AbCd1234" item)
     = Raise ParseError
  /\ analysis_coverage world_bad_entry ("/tmp/" +:+ tmp_folder "AbCd1234" item)
     = Raise (KeyError "filename")
  /\ snd (validate_all_patches world_bad_entry "AbCd1234" item)
     = Raise (KeyError "filename").
Proof. repeat split; vm_compute; reflexivity. Qed.

End ExceptionClaims.

(** ** Changed-line coverage *)

Section AggregateFacts.
Import Pipeline Aggregate.

#[local] Set Warnings "-clear-no-such-hyp".

Lemma elem_of_add_lines (lines : list cov_record) (s : gset cov_record)
    (r : cov_record) :
  r ∈ add_lines s lines <-> r ∈ s \/ r ∈ lines.
Proof.
  unfold add_lines. revert s. induction lines as [|x xs IH]; intros s; cbn.
  - set_solver.
  - rewrite IH. set_solver.
Qed.

Lemma elem_of_fold_add_lines (bug_results : list Outcome) (acc : gset cov_record)
    (r : cov_record) :
  r ∈ fold_left (fun acc detail => add_lines acc (o_lines_coverage_info detail))
                bug_results acc
  <-> r ∈ acc \/ exists d, d ∈ bug_results /\ r ∈ o_lines_coverage_info d.
Proof.
  revert acc. induction bug_results as [|d ds IH]; intros acc; cbn.
  - split; [auto|]. intros [H|(d & Hd & _)]; [exact H|]. inversion Hd.
  - rewrite IH, elem_of_add_lines. split.
    + intros [[H|H]|(d' & Hd' & H)]; [auto| |].
      * right. exists d. split; [left|exact H].
      * right. exists d'. split; [now right|exact H].
    + intros [H|(d' & Hd' & H)]; [auto|].
      apply elem_of_cons in Hd' as [->|Hd']; [auto|].
      right. eauto.
Qed.

Lemma observed_spec (r : cov_record) (bug_results : list Outcome) :
  observed r bug_results = true
  <-> exists d, d ∈ bug_results /\ r ∈ o_lines_coverage_info d.
Proof.
  unfold observed. rewrite existsb_exists. split.
  - intros (d & Hd & H). apply existsb_exists in H as (x & Hx & Hdec).
    apply bool_decide_eq_true in Hdec as ->.
    exists d. split; now apply list_elem_of_In.
  - intros (d & Hd & H). exists d. split; [now apply list_elem_of_In|].
    apply existsb_exists. exists r. split; [now apply list_elem_of_In|].
    now apply bool_decide_eq_true.
Qed.

Lemma elem_of_diff_coverage_set (r : cov_record) (bug_results : list Outcome) :
  r ∈ diff_coverage_set bug_results <-> observed r bug_results = true.
Proof.
  unfold diff_coverage_set. rewrite elem_of_fold_add_lines, observed_spec.
  set_solver.
Qed.

Lemma key_filter_length (k : string * string * string) (l : list cov_record) :
  NoDup l ->
  length (List.filter (fun r => bool_decide (key_of r = k)) l)
  = (Nat.b2n (bool_decide ((k, true) ∈ l)) + Nat.b2n (bool_decide ((k, false) ∈ l)))%nat.
Proof.
  induction 1 as [|[k' b] l Hnotin Hnd IH]; [reflexivity|].
  cbn [List.filter key_of fst]. destruct (decide (k' = k)) as [->|Hne].
  - rewrite bool_decide_eq_true_2 by reflexivity. cbn [length]. rewrite IH.
    destruct b.
    + rewrite (bool_decide_eq_true_2 ((k, true) ∈ (k, true) :: l)) by left.
      rewrite (bool_decide_eq_false_2 ((k, true) ∈ l)) by exact Hnotin.
      rewrite (bool_decide_ext ((k, false) ∈ (k, true) :: l) ((k, false) ∈ l));
        [reflexivity|].
      rewrite elem_of_cons. split; [intros [?|?]; [discriminate|assumption]|auto].
    + rewrite (bool_decide_eq_true_2 ((k, false) ∈ (k, false) :: l)) by left.
      rewrite (bool_decide_eq_false_2 ((k, false) ∈ l)) by exact Hnotin.
      rewrite (bool_decide_ext ((k, true) ∈ (k, false) :: l) ((k, true) ∈ l));
        [cbn; lia|].
      rewrite elem_of_cons. split; [intros [?|?]; [discriminate|assumption]|auto].
  - rewrite bool_decide_eq_false_2 by exact Hne. rewrite IH.
    rewrite (bool_decide_ext ((k, true) ∈ (k', b) :: l) ((k, true) ∈ l)),
            (bool_decide_ext ((k, false) ∈ (k', b) :: l) ((k, false) ∈ l));
      [reflexivity| |];
      (rewrite elem_of_cons; split; [intros [?|?]; [congruence|assumption]|auto]).
Qed.

Lemma observed_bool_decide (r : cov_record) (bug_results : list Outcome) :
  bool_decide (r ∈ elements (diff_coverage_set bug_results)) = observed r bug_results.
Proof.
  destruct (observed r bug_results) eqn:E.
  - apply bool_decide_eq_true_2, elem_of_elements, elem_of_diff_coverage_set, E.
  - apply bool_decide_eq_false_2. intros H.
    apply elem_of_elements, elem_of_diff_coverage_set in H. congruence.
Qed.

End AggregateFacts.

Section AggregateClaims.
Import Pipeline Aggregate Sample.

(** C6 (amended). Changed-line coverage records are deduplicated across the
    trials of one task by the whole record (class, file, line number, hit):
    a record is in the set exactly when some trial reported it and then
    counts once in the denominator, however many trials reported it, so two
    trials both reporting hit = true for one (class, file, line) count once.
    A key reported with hit = true by one trial and hit = false by another
    contributes two records. *)
Theorem diff_coverage_dedup_by_record (bug_results : list Outcome) :
  (forall r, r ∈ diff_coverage_set bug_results <-> observed r bug_results = true)
  /\ NoDup (elements (diff_coverage_set bug_results))
  /\ (forall k,
        length (records_with_key k bug_results)
        = (Nat.b2n (observed (k, true) bug_results)
           + Nat.b2n (observed (k, false) bug_results))%nat)
  /\ (forall k,
        observed (k, true) bug_results = true ->
        observed (k, false) bug_results = false ->
        records_with_key k bug_results = [(k, true)]).
Proof.
  assert (Hlen : forall k,
            length (records_with_key k bug_results)
            = (Nat.b2n (observed (k, true) bug_results)
               + Nat.b2n (observed (k, false) bug_results))%nat).
  { intros k. unfold records_with_key.
    rewrite key_filter_length by apply NoDup_elements.
    now rewrite !observed_bool_decide. }
  split; [intros r; apply elem_of_diff_coverage_set|].
  split; [apply NoDup_elements|]. split; [exact Hlen|].
  intros k Ht Hf. specialize (Hlen k). rewrite Ht, Hf in Hlen. cbn in Hlen.
  destruct (records_with_key k bug_results) as [|[k' b] [|y ys]] eqn:E;
    try discriminate.
  assert (Hin : In (k', b) (records_with_key k bug_results)) by (rewrite E; left; reflexivity).
  unfold records_with_key in Hin. apply filter_In in Hin as [Hin Hk].
  apply bool_decide_eq_true in Hk. cbn in Hk. subst k'.
  destruct b; [reflexivity|].
  apply list_elem_of_In, elem_of_elements, elem_of_diff_coverage_set in Hin. congruence.
Qed.

Lemma diff_coverage_dedup_by_record_witness :
  records_with_key (key_of (line3 true))
    [outcome_with [line3 true]; outcome_with [line3 true]]
  = [(key_of (line3 true), true)].
Proof.
  apply (diff_coverage_dedup_by_record
           [outcome_with [line3 true]; outcome_with [line3 true]]);
    vm_compute; reflexivity.
Defined.

(** Two trials both reporting hit = true for one line: one record, and a
    changed-line coverage of 1. *)
Example same_record_counts_once :
  diff_denominator [outcome_with [line3 true]; outcome_with [line3 true]] = 1%nat
  /\ (diff_coverage [outcome_with [line3 true]; outcome_with [line3 true]] == 1)%Q.
Proof. split; vm_compute; reflexivity. Qed.

(** C6 as worded fails: one key, reported hit by one trial and not hit by
    another, contributes two records to the denominator. *)
Lemma same_key_counts_twice :
  key_of (line3 true) = key_of (line3 false)
  /\ length (records_with_key (key_of (line3 true))
               [outcome_with [line3 true]; outcome_with [line3 false]]) = 2%nat
  /\ diff_denominator [outcome_with [line3 true]; outcome_with [line3 false]] = 2%nat
  /\ (diff_coverage [outcome_with [line3 true]; outcome_with [line3 false]] == 1 # 2)%Q.
Proof. repeat split; vm_compute; reflexivity. Qed.

End AggregateClaims.

(** ** Post-processing of generations *)

Section ScanFacts.
Import Py Postprocess.

Lemma prefix_take_str (n : nat) (s : string) :
  String.prefix (take_str n s) s = true.
Proof.
  revert n. induction s as [|ch rest IH]; intros [|n]; cbn; try reflexivity.
  destruct (Ascii.ascii_dec ch ch) as [_|Hne]; [apply IH|congruence].
Qed.

Lemma take_str_all (n : nat) (s : string) :
  (String.length s <= n)%nat -> take_str n s = s.
Proof.
  revert n. induction s as [|ch rest IH]; intros [|n] H; cbn in *;
    try reflexivity; try lia.
  f_equal. apply IH. lia.
Qed.

Lemma length_take_str (n : nat) (s : string) :
  String.length (take_str n s) = Nat.min n (String.length s).
Proof.
  revert n. induction s as [|ch rest IH]; intros [|n]; cbn; try reflexivity.
  now rewrite IH.
Qed.

Lemma take_take_str (n m : nat) (s : string) :
  take_str n (take_str m s) = take_str (Nat.min n m) s.
Proof.
  revert n m. induction s as [|ch rest IH]; intros [|n] [|m]; cbn; try reflexivity.
  now rewrite IH.
Qed.

(** Nothing balances on the first character. *)
Lemma first_step_unbalanced (ch : ascii) :
  balanced (scan_step scan_init ch) = false.
Proof.
  destruct ch as [[] [] [] [] [] [] [] []]; reflexivity.
Qed.

Lemma break_index_bounds (st : scan_state) (s : string) (i j : nat) :
  break_index st s i = Some j -> (i <= j < i + String.length s)%nat.
Proof.
  revert st i. induction s as [|ch rest IH]; intros st i H; cbn in *; [discriminate|].
  destruct (balanced (scan_step st ch)).
  - injection H as <-. lia.
  - apply IH in H. lia.
Qed.

Lemma break_index_shift (st : scan_state) (s : string) (i : nat) :
  break_index st s (S i) = option_map S (break_index st s i).
Proof.
  revert st i. induction s as [|ch rest IH]; intros st i; cbn; [reflexivity|].
  destruct (balanced (scan_step st ch)); [reflexivity|apply IH].
Qed.

Lemma scan_stops_break_index (st : scan_state) (s : string) (i : nat) :
  scan_stops st s = match break_index st s i with Some _ => true | None => false end.
Proof.
  revert st i. induction s as [|ch rest IH]; intros st i; cbn; [reflexivity|].
  destruct (balanced (scan_step st ch)); [reflexivity|apply IH].
Qed.

(** The scan of a prefix: it breaks where the scan of the whole text does,
    provided the prefix reaches that far. *)
Lemma break_index_take (st : scan_state) (s : string) (i n : nat) :
  break_index st (take_str n s) i
  = match break_index st s i with
    | Some j => if (j - i <? n)%nat then Some j else None
    | None => None
    end.
Proof.
  revert st i n. induction s as [|ch rest IH]; intros st i [|n]; cbn;
    try reflexivity.
  - destruct (balanced (scan_step st ch)); [reflexivity|].
    destruct (break_index (scan_step st ch) rest (S i)); reflexivity.
  - destruct (balanced (scan_step st ch)).
    + replace (i - i)%nat with 0%nat by lia. reflexivity.
    + rewrite IH. destruct (break_index (scan_step st ch) rest (S i)) as [j|] eqn:E;
        [|reflexivity].
      apply break_index_bounds in E.
      replace (j - i)%nat with (S (j - S i)) by lia. reflexivity.
Qed.

Lemma scan_stops_app (st : scan_state) (a b : string) :
  scan_stops st a = true -> scan_stops st (a +:+ b) = true.
Proof.
  revert st. induction a as [|ch rest IH]; intros st; [discriminate|].
  change (String ch rest +:+ b) with (String ch (rest +:+ b)).
  cbn [scan_stops].
  destruct (balanced (scan_step st ch)); [reflexivity|apply IH].
Qed.

End ScanFacts.

Section StopAtFunction.
Import Py Postprocess.

Lemma stop_at_function_cases (g : string) :
  (break_index scan_init g 0 = None /\ _stop_at_function g = g)
  \/ (exists j, break_index scan_init g 0 = Some j
                /\ (1 <= j < String.length g)%nat
                /\ _stop_at_function g = take_str (j + 1) g).
Proof.
  unfold _stop_at_function, final_char_idx.
  destruct (break_index scan_init g 0) as [j|] eqn:E.
  - right. exists j. pose proof (break_index_bounds _ _ _ _ E) as Hb.
    assert (Hj : (1 <= j)%nat).
    { destruct g as [|ch rest]; [discriminate|]. cbn in E.
      rewrite first_step_unbalanced in E. apply break_index_bounds in E. lia. }
    split; [reflexivity|]. split; [lia|].
    destruct j; [lia|reflexivity].
  - left. split; [reflexivity|].
    destruct (String.length g - 1)%nat eqn:El; [reflexivity|].
    apply take_str_all. lia.
Qed.

Lemma break_index_of_cut (g : string) (j : nat) :
  break_index scan_init g 0 = Some j ->
  break_index scan_init (take_str (j + 1) g) 0 = Some j.
Proof.
  intros E. rewrite break_index_take, E.
  replace (j - 0 <? j + 1)%nat with true; [reflexivity|].
  symmetry. apply Nat.ltb_lt. lia.
Qed.

(** X1. [_stop_at_function] returns a prefix of its argument, and applying it
    twice is applying it once. *)
Theorem stop_at_function_prefix_idempotent (g : string) :
  String.prefix (_stop_at_function g) g = true
  /\ _stop_at_function (_stop_at_function g) = _stop_at_function g.
Proof.
  destruct (stop_at_function_cases g) as [[_ E]|(j & Hj & Hb & E)].
  - rewrite E. split; [|exact E].
    rewrite <- (take_str_all (String.length g) g) at 1 by lia.
    apply prefix_take_str.
  - rewrite E. split; [apply prefix_take_str|].
    destruct (stop_at_function_cases (take_str (j + 1) g))
      as [[_ E']|(j' & Hj' & _ & E')]; [exact E'|].
    rewrite (break_index_of_cut g j Hj) in Hj'. injection Hj' as <-.
    rewrite E', take_take_str. f_equal. lia.
Qed.

(** X2. When the scan never balances, [_stop_at_function] returns its
    argument unchanged; when it does, the result is the shortest prefix on
    which the scan balances: the scan balances on the result and on none of
    the shorter prefixes. *)
Theorem stop_at_function_shortest (g : string) :
  (scan_stops scan_init g = false -> _stop_at_function g = g)
  /\ (scan_stops scan_init g = true ->
      scan_stops scan_init (_stop_at_function g) = true
      /\ forall n, (n < String.length (_stop_at_function g))%nat ->
                   scan_stops scan_init (take_str n g) = false).
Proof.
  rewrite (scan_stops_break_index scan_init g 0).
  destruct (stop_at_function_cases g) as [[Hn E]|(j & Hj & Hb & E)].
  - rewrite Hn. split; [intros _; exact E|discriminate].
  - rewrite Hj. split; [discriminate|]. intros _. rewrite E. split.
    + rewrite (scan_stops_break_index _ _ 0), (break_index_of_cut g j Hj).
      reflexivity.
    + intros n Hn. rewrite length_take_str in Hn.
      rewrite (scan_stops_break_index _ _ 0), break_index_take, Hj.
      replace (j - 0 <? n)%nat with false; [reflexivity|].
      symmetry. apply Nat.ltb_ge. lia.
Qed.

Lemma stop_at_function_shortest_witness :
  scan_stops scan_init (_stop_at_function "{ a } b") = true
  /\ scan_stops scan_init (take_str 4 "{ a } b") = false.
Proof.
  destruct (proj2 (stop_at_function_shortest "{ a } b") eq_refl) as [H1 H2].
  split; [exact H1|]. apply H2. vm_compute. lia.
Defined.

End StopAtFunction.

Section CheckStop.
Import Py Postprocess.

Lemma drop_str_app (a b : string) : drop_str (String.length a) (a +:+ b) = b.
Proof. induction a as [|ch rest IH]; [destruct b; reflexivity|exact IH]. Qed.

Lemma drop_str_short (n : nat) (s : string) :
  (String.length s <= n)%nat -> drop_str n s = EmptyString.
Proof.
  revert n. induction s as [|ch rest IH]; intros [|n] H; cbn in *;
    try reflexivity; try lia.
  apply IH. lia.
Qed.

Lemma stop_at_function_empty : _stop_at_function EmptyString = EmptyString.
Proof. reflexivity. Qed.

(** X3. [postprocess_generation_complete] cuts the generation by the length
    of the prompt, whatever the prompt's text: on a generation that starts
    with the prompt it is [_stop_at_function] of the rest, on a generation no
    longer than the prompt it is the empty string, and two prompts of one
    length give one result. *)
Theorem postprocess_generation_complete_cut (prompt generation : string) :
  (forall body,
     postprocess_generation_complete prompt (prompt +:+ body)
     = _stop_at_function body)
  /\ ((String.length generation <= String.length prompt)%nat ->
      postprocess_generation_complete prompt generation = EmptyString)
  /\ (forall prompt',
        String.length prompt' = String.length prompt ->
        postprocess_generation_complete prompt' generation
        = postprocess_generation_complete prompt generation).
Proof.
  unfold postprocess_generation_complete. split; [|split].
  - intros body. now rewrite drop_str_app.
  - intros H. now rewrite drop_str_short.
  - intros prompt' ->. reflexivity.
Qed.

Lemma postprocess_generation_complete_cut_witness :
  postprocess_generation_complete "void f() {" "void f" = EmptyString.
Proof.
  apply (postprocess_generation_complete_cut "void f() {" "void f").
  vm_compute. lia.
Defined.

Lemma append_assoc (a b c : string) : (a +:+ b) +:+ c = a +:+ (b +:+ c).
Proof.
  induction a as [|ch rest IH]; [reflexivity|].
  change (String ch ((rest +:+ b) +:+ c) = String ch (rest +:+ (b +:+ c))).
  now rewrite IH.
Qed.

Lemma split_go_nonempty (sep s : string) (skip : nat) (cur : list ascii) :
  split_go sep s skip cur <> [].
Proof.
  revert skip cur. induction s as [|ch rest IH]; intros skip cur;
    cbn [split_go]; [congruence|].
  destruct skip; [|apply IH].
  destruct (String.prefix sep (String ch rest)); [congruence|apply IH].
Qed.

Lemma split_go_two_pieces (sep s : string) (cur : list ascii) :
  sep <> EmptyString -> contains sep s = true ->
  (2 <= length (split_go sep s 0 cur))%nat.
Proof.
  intros Hsep. revert cur. induction s as [|ch rest IH]; intros cur Hc.
  - destruct sep; [congruence|discriminate].
  - cbn [contains] in Hc. cbn [split_go].
    destruct (String.prefix sep (String ch rest)) eqn:Hp.
    + pose proof (split_go_nonempty sep rest (String.length sep - 1) []) as Hne.
      destruct (split_go sep rest (String.length sep - 1) []); [congruence|].
      cbn. lia.
    + cbn in Hc. now apply IH.
Qed.

(** X4. In mode [complete] [check_stop] never raises, and once it answers
    [True] it answers [True] on every extension of the generation. *)
Theorem check_stop_complete_stable (function_signature generation more : string) :
  (exists b, check_stop function_signature Complete generation = Ret b)
  /\ (check_stop function_signature Complete generation = Ret true ->
      check_stop function_signature Complete (generation +:+ more) = Ret true).
Proof.
  unfold check_stop. split; [eauto|].
  intros H. injection H as H. f_equal.
  replace (function_signature +:+ "{" +:+ LF +:+ generation +:+ more)
    with ((function_signature +:+ "{" +:+ LF +:+ generation) +:+ more).
  - now apply scan_stops_app.
  - now rewrite !append_assoc.
Qed.

Lemma check_stop_complete_stable_witness :
  check_stop "void f()" Complete (" return; " +:+ "}" +:+ " int g") = Ret true.
Proof.
  apply (check_stop_complete_stable "void f()" (" return; " +:+ "}") " int g").
  reflexivity.
Defined.

(** X5. In mode [chat] [check_stop] answers [False] when the signature does
    not occur in the generation, returns an answer for every non-empty
    signature, and raises [ValueError] on every generation when the
    signature is the empty string. *)
Theorem check_stop_chat_errors (function_signature generation : string) :
  (contains function_signature generation = false ->
   check_stop function_signature Chat generation = Ret false)
  /\ (function_signature <> EmptyString ->
      exists b, check_stop function_signature Chat generation = Ret b)
  /\ check_stop EmptyString Chat generation = Raise ValueError.
Proof.
  split; [|split].
  - intros H. unfold check_stop. now rewrite H.
  - intros Hne. unfold check_stop.
    destruct (contains function_signature generation) eqn:Hc; cbn [negb];
      [|eauto].
    unfold split. destruct function_signature as [|c sig]; [congruence|].
    pose proof (split_go_two_pieces (String c sig) generation [] Hne Hc) as Hlen.
    destruct (split_go (String c sig) generation 0 []) as [|p0 [|p1 ps]];
      cbn in Hlen; try lia.
    cbn. eauto.
  - unfold check_stop.
    assert (Hc : contains EmptyString generation = true)
      by (destruct generation; reflexivity).
    now rewrite Hc.
Qed.

Lemma check_stop_chat_errors_witness :
  exists b, check_stop "f()" Chat "int f() { }" = Ret b.
Proof.
  apply (check_stop_chat_errors "f()" "int f() { }"). discriminate.
Defined.

End CheckStop.

Section QuotesAndTokens.
Import Py Postprocess.

Lemma scan_step_same (a b : scan_state) (ch : ascii) :
  same_but_single_quote a b ->
  same_but_single_quote (scan_step a ch) (scan_step b ch).
Proof.
  intros (Hc & Hb & Hq). unfold same_but_single_quote, scan_step. cbn.
  rewrite Hc, Hb, Hq. repeat split.
Qed.

Lemma balanced_same (a b : scan_state) :
  same_but_single_quote a b -> balanced a = balanced b.
Proof. intros (Hc & Hb & _). unfold balanced. now rewrite Hc, Hb. Qed.

Lemma scan_step_apostrophe (st : scan_state) :
  same_but_single_quote (scan_step st "'"%char) st.
Proof. unfold same_but_single_quote, scan_step. cbn. repeat split. Qed.

Lemma scan_stops_without_apostrophes (a b : scan_state) (s : string) :
  same_but_single_quote a b -> balanced a = false ->
  scan_stops a (remove_char "'"%char s) = scan_stops b s.
Proof.
  revert a b. induction s as [|ch rest IH]; intros a b Hab Hbal; [reflexivity|].
  cbn [remove_char scan_stops].
  destruct (Ascii.eqb_spec ch "'"%char) as [->|Hne].
  - assert (Hs : same_but_single_quote a (scan_step b "'"%char)).
    { destruct Hab as (H1 & H2 & H3).
      destruct (scan_step_apostrophe b) as (H4 & H5 & H6).
      repeat split; congruence. }
    rewrite <- (balanced_same _ _ Hs), Hbal. now apply IH.
  - cbn [scan_stops].
    rewrite (balanced_same _ _ (scan_step_same a b ch Hab)).
    destruct (balanced (scan_step b ch)) eqn:E; [reflexivity|].
    apply IH; [now apply scan_step_same|].
    now rewrite (balanced_same _ _ (scan_step_same a b ch Hab)).
Qed.

Lemma remove_char_app (c : ascii) (a b : string) :
  remove_char c (a +:+ b) = remove_char c a +:+ remove_char c b.
Proof.
  induction a as [|ch rest IH]; [reflexivity|].
  change (String ch rest +:+ b) with (String ch (rest +:+ b)).
  cbn [remove_char]. destruct (Ascii.eqb ch c); [exact IH|].
  change (String ch (remove_char c rest) +:+ remove_char c b)
    with (String ch (remove_char c rest +:+ remove_char c b)).
  now rewrite IH.
Qed.

(** X6. Apostrophes never change the answer of [check_stop]:
    [in_single_quote] is updated and never read, so deleting every
    apostrophe from the signature and from the generation leaves the
    decision of the complete mode unchanged, and likewise for the
    generation in the fallback mode. *)
Theorem apostrophes_are_ignored (function_signature generation : string) :
  scan_stops scan_init (remove_char "'"%char generation)
  = scan_stops scan_init generation
  /\ check_stop (remove_char "'"%char function_signature) Complete
       (remove_char "'"%char generation)
     = check_stop function_signature Complete generation
  /\ check_stop function_signature OtherMode (remove_char "'"%char generation)
     = check_stop function_signature OtherMode generation.
Proof.
  assert (Hscan : forall s, scan_stops scan_init (remove_char "'"%char s)
                            = scan_stops scan_init s).
  { intros s. apply scan_stops_without_apostrophes; [repeat split|reflexivity]. }
  split; [apply Hscan|]. split.
  - unfold check_stop. f_equal.
    rewrite <- (Hscan (function_signature +:+ "{" +:+ LF +:+ generation)).
    now rewrite !remove_char_app.
  - unfold check_stop. f_equal. apply Hscan.
Qed.

(** *** [_stop_at_stop_token] *)

Lemma prefix_of_take (t : string) (n : nat) (s : string) :
  String.prefix t (take_str n s) = true -> String.prefix t s = true.
Proof.
  revert n s. induction t as [|c t IH]; intros n s H; [destruct s; reflexivity|].
  destruct n, s as [|d s]; cbn in H; try discriminate.
  cbn. destruct (Ascii.ascii_dec c d); [now apply (IH n)|discriminate].
Qed.

Lemma find_ge (t s : string) : -1 <= find t s.
Proof.
  induction s as [|ch rest IH]; cbn [find].
  - destruct (String.prefix t EmptyString); lia.
  - destruct (String.prefix t (String ch rest)); [lia|].
    destruct (Z.eqb_spec (find t rest) (-1)); lia.
Qed.

Lemma find_absent (t s : string) : find t s = -1 <-> contains t s = false.
Proof.
  induction s as [|ch rest IH]; cbn [find contains].
  - destruct (String.prefix t EmptyString); cbn; split; (discriminate || reflexivity).
  - destruct (String.prefix t (String ch rest)); cbn [orb];
      [split; discriminate|].
    pose proof (find_ge t rest).
    destruct (Z.eqb_spec (find t rest) (-1)) as [E|E]; rewrite <- IH; split; intros; lia.
Qed.

(** A non-empty token inside [s[:m]] starts before [m] in [s]. *)
Lemma find_inside_take (t s : string) (m : nat) :
  t <> EmptyString -> contains t (take_str m s) = true ->
  0 <= find t s < Z.of_nat m.
Proof.
  intros Ht. revert m. induction s as [|ch rest IH]; intros m Hc.
  - destruct m, t; cbn in Hc; congruence.
  - destruct m as [|m]; [destruct t; cbn in Hc; congruence|].
    cbn [take_str contains] in Hc. cbn [find].
    destruct (String.prefix t (String ch rest)) eqn:Hp; [lia|].
    destruct (String.prefix t (String ch (take_str m rest))) eqn:Hp'.
    + apply (prefix_of_take t (S m) (String ch rest)) in Hp'. congruence.
    + cbn in Hc. apply IH in Hc.
      destruct (Z.eqb_spec (find t rest) (-1)); lia.
Qed.

(** At index [find t s] the text continues with [t]. *)
Lemma find_points_at (t s : string) :
  0 <= find t s -> String.prefix t (drop_str (Z.to_nat (find t s)) s) = true.
Proof.
  induction s as [|ch rest IH]; cbn [find].
  - destruct (String.prefix t EmptyString) eqn:E; [intros _; exact E|lia].
  - destruct (String.prefix t (String ch rest)) eqn:E; [intros _; exact E|].
    pose proof (find_ge t rest).
    destruct (Z.eqb_spec (find t rest) (-1)); [lia|]. intros _.
    replace (Z.to_nat (find t rest + 1)) with (S (Z.to_nat (find t rest))) by lia.
    cbn [drop_str]. apply IH. lia.
Qed.

Lemma min_stop_index_le (s : string) (tokens : list string) (acc : Z) :
  min_stop_index s tokens acc <= acc.
Proof.
  revert acc. induction tokens as [|t ts IH]; intros acc; cbn; [lia|].
  destruct (negb (find t s =? -1) && (find t s <? acc)) eqn:E.
  - apply andb_prop in E as [_ E]. apply Z.ltb_lt in E.
    specialize (IH (find t s)). lia.
  - apply IH.
Qed.

Lemma min_stop_index_below (s : string) (tokens : list string) (acc : Z) (t : string) :
  In t tokens -> find t s <> -1 -> min_stop_index s tokens acc <= find t s.
Proof.
  revert acc. induction tokens as [|u us IH]; intros acc Hin Hf; [destruct Hin|].
  cbn [min_stop_index]. destruct Hin as [->|Hin]; [|now apply IH].
  destruct (Z.eqb_spec (find t s) (-1)); [congruence|]. cbn [negb andb].
  destruct (Z.ltb_spec (find t s) acc).
  - apply min_stop_index_le.
  - pose proof (min_stop_index_le s us acc). lia.
Qed.

Lemma min_stop_index_origin (s : string) (tokens : list string) (acc : Z) :
  min_stop_index s tokens acc = acc
  \/ exists t, In t tokens /\ min_stop_index s tokens acc = find t s
               /\ 0 <= find t s < acc.
Proof.
  revert acc. induction tokens as [|u us IH]; intros acc; cbn [min_stop_index];
    [now left|].
  destruct (negb (find u s =? -1) && (find u s <? acc)) eqn:E.
  - apply andb_prop in E as [E1 E2]. apply negb_true_iff, Z.eqb_neq in E1.
    apply Z.ltb_lt in E2. pose proof (find_ge u s).
    destruct (IH (find u s)) as [H1|(t & Hin & H1 & H2)].
    + right. exists u. split; [now left|]. split; [exact H1|lia].
    + right. exists t. split; [now right|]. split; [exact H1|lia].
  - destruct (IH acc) as [H1|(t & Hin & H1 & H2)]; [now left|].
    right. exists t. split; [now right|]. now split.
Qed.

(** X7. [_stop_at_stop_token] returns a prefix of the decoded string in which
    no non-empty stop token occurs; when no stop token occurs in the string
    the prefix is the whole string, and when the prefix is shorter than the
    string, the string goes on with a stop token right after it. *)
Theorem stop_at_stop_token_spec (decoded_string : string) (stop_tokens : list string) :
  let r := _stop_at_stop_token decoded_string stop_tokens in
  String.prefix r decoded_string = true
  /\ (forall t, In t stop_tokens -> t <> EmptyString -> contains t r = false)
  /\ ((forall t, In t stop_tokens -> contains t decoded_string = false) ->
      r = decoded_string)
  /\ (r <> decoded_string ->
      exists t, In t stop_tokens
                /\ String.prefix t (drop_str (String.length r) decoded_string) = true).
Proof.
  intros r. unfold _stop_at_stop_token in r.
  set (len := Z.of_nat (String.length decoded_string)) in *.
  set (m := min_stop_index decoded_string stop_tokens len) in *.
  assert (Hm : m <= len) by apply min_stop_index_le.
  split; [apply prefix_take_str|]. split; [|split].
  - intros t Hin Ht. destruct (contains t r) eqn:Hc; [|reflexivity].
    apply find_inside_take in Hc; [|exact Ht].
    assert (Hle : m <= find t decoded_string)
      by (apply min_stop_index_below; [exact Hin|lia]).
    lia.
  - intros Hnone. subst r. apply take_str_all.
    destruct (min_stop_index_origin decoded_string stop_tokens len)
      as [E|(t & Hin & E & Hb)].
    + fold m in E. lia.
    + apply Hnone, find_absent in Hin. lia.
  - intros Hne.
    destruct (min_stop_index_origin decoded_string stop_tokens len)
      as [E|(t & Hin & E & Hb)]; fold m in E.
    + exfalso. apply Hne. subst r. apply take_str_all. lia.
    + exists t. split; [exact Hin|].
      assert (Hl : String.length r = Z.to_nat (find t decoded_string)).
      { subst r. rewrite length_take_str, E. lia. }
      rewrite Hl. apply find_points_at. lia.
Qed.

Lemma stop_at_stop_token_spec_witness :
  exists t,
    In t ["def"; "class"]
    /\ String.prefix t
         (drop_str (String.length (_stop_at_stop_token "x = 1 class A" ["def"; "class"]))
                   "x = 1 class A") = true.
Proof.
  pose proof (stop_at_stop_token_spec "x = 1 class A" ["def"; "class"]) as H.
  cbv zeta in H. destruct H as (_ & _ & _ & H). apply H.
  vm_compute. discriminate.
Defined.

End QuotesAndTokens.

(** ** More on the estimator *)

Section EstimatorMoreFacts.
Import Estimator EstimatorMore.

Lemma comb_0 (n : nat) : comb n 0 = 1.
Proof. destruct n; reflexivity. Qed.

Lemma comb_S (n k : nat) : comb (S n) (S k) = comb n k + comb n (S k).
Proof. reflexivity. Qed.

Lemma comb_above (n k : nat) : (n < k)%nat -> comb n k = 0.
Proof.
  revert k. induction n as [|n IH]; intros [|k] H; try lia; [reflexivity|].
  rewrite comb_S, !IH by lia. reflexivity.
Qed.

Lemma comb_pos (n k : nat) : (k <= n)%nat -> 0 < comb n k.
Proof.
  revert k. induction n as [|n IH]; intros [|k] H; try lia;
    try (rewrite comb_0; lia).
  rewrite comb_S. destruct (Nat.eq_dec k n) as [->|Hne].
  - rewrite (comb_above n (S n)) by lia. specialize (IH n). lia.
  - pose proof (IH k). pose proof (IH (S k)). lia.
Qed.

(** (k+1) C(n,k+1) = (n-k) C(n,k) *)
Lemma comb_absorb (n k : nat) :
  Z.of_nat (S k) * comb n (S k) = (Z.of_nat n - Z.of_nat k) * comb n k.
Proof.
  revert k. induction n as [|n IH]; intros k.
  - destruct k; cbn; lia.
  - destruct k as [|k].
    + specialize (IH 0%nat). rewrite comb_S, !comb_0 in *. lia.
    + pose proof (IH k) as H1. pose proof (IH (S k)) as H2.
      rewrite !comb_S. nia.
Qed.

(** (m+1) C(m,k) = (m+1-k) C(m+1,k) *)
Lemma comb_shrink (m k : nat) :
  Z.of_nat (S m) * comb m k = (Z.of_nat (S m) - Z.of_nat k) * comb (S m) k.
Proof.
  destruct k as [|k]; [rewrite !comb_0; lia|].
  pose proof (comb_absorb m k) as H. rewrite comb_S. nia.
Qed.

Lemma big_prod_ext (f g : Z -> Q) (lo : Z) (len : nat) :
  (forall i, lo <= i < lo + Z.of_nat len -> (f i == g i)%Q) ->
  (big_prod f lo len == big_prod g lo len)%Q.
Proof.
  revert lo. induction len as [|len IH]; intros lo H; [reflexivity|].
  cbn [big_prod]. rewrite (H lo) by lia. rewrite IH; [reflexivity|].
  intros i Hi. apply H. lia.
Qed.

(** The window of the estimator as a quotient of binomials. *)
Lemma window_is_binomial_quotient (n k c : nat) :
  (1 <= k)%nat -> (c + k <= n)%nat ->
  (big_prod (one_minus_k_over (Z.of_nat k)) (Z.of_nat n - Z.of_nat c + 1) c
   * inject_Z (comb n k)
   == inject_Z (comb (n - c) k))%Q.
Proof.
  intros Hk. induction c as [|c IH]; intros Hc.
  - cbn [big_prod]. rewrite Nat.sub_0_r. ring.
  - cbn [big_prod].
    replace (Z.of_nat n - Z.of_nat (S c) + 1 + 1)
      with (Z.of_nat n - Z.of_nat c + 1) by lia.
    rewrite <- Qmult_assoc, IH by lia.
    replace (n - c)%nat with (S (n - S c)) by lia.
    pose proof (comb_shrink (n - S c) k) as Hs.
    unfold one_minus_k_over.
    replace (Z.of_nat n - Z.of_nat (S c) + 1) with (Z.of_nat (S (n - S c))) by lia.
    set (m := (n - S c)%nat) in *.
    assert (Hm : ~ (inject_Z (Z.of_nat (S m)) == 0)%Q).
    { intros E. unfold Qeq, inject_Z in E. cbn [Qnum Qden] in E. lia. }
    apply (Qmult_inj_r _ _ (inject_Z (Z.of_nat (S m)))); [exact Hm|].
    transitivity ((inject_Z (Z.of_nat (S m)) - inject_Z (Z.of_nat k))
                  * inject_Z (comb (S m) k))%Q.
    + field. exact Hm.
    + unfold Qminus. rewrite <- inject_Z_opp, <- inject_Z_plus, <- !inject_Z_mult.
      unfold Qeq, inject_Z. cbn [Qnum Qden]. lia.
Qed.

End EstimatorMoreFacts.

Section EstimatorMoreClaims.
Import Estimator EstimatorMore.

Lemma comb_1 (n : nat) : comb n 1 = Z.of_nat n.
Proof.
  induction n as [|n IH]; [reflexivity|]. rewrite comb_S, comb_0, IH. lia.
Qed.

Lemma get_pass_at_k_binomial (n c k : Z) :
  0 <= c <= n -> 1 <= k <= n ->
  (get_pass_at_k n c k
   == 1 - inject_Z (comb (Z.to_nat (n - c)) (Z.to_nat k))
          / inject_Z (comb (Z.to_nat n) (Z.to_nat k)))%Q.
Proof.
  intros Hc Hk.
  assert (Hpos : (0 < inject_Z (comb (Z.to_nat n) (Z.to_nat k)))%Q).
  { change 0%Q with (inject_Z 0). rewrite <- Zlt_Qlt. apply comb_pos. lia. }
  destruct (Z.ltb_spec (n - c) k) as [Hlt|Hge].
  - unfold get_pass_at_k. apply Z.ltb_lt in Hlt as Hlt'. rewrite Hlt'.
    rewrite comb_above by lia. field. lra.
  - rewrite get_pass_at_k_product by lia.
    pose proof (window_is_binomial_quotient (Z.to_nat n) (Z.to_nat k) (Z.to_nat c)
                  ltac:(lia) ltac:(lia)) as Hw.
    rewrite !Z2Nat.id in Hw by lia.
    replace (Z.to_nat n - Z.to_nat c)%nat with (Z.to_nat (n - c)) in Hw by lia.
    rewrite <- Hw. field. lra.
Qed.

(** X8. The estimator computes what its docstring says: for 0 <= c <= n and
    1 <= k <= n, [estimator n c k] (and [get_pass_at_k n c k]) is
    1 - comb(n - c, k) / comb(n, k). *)
Theorem estimator_is_binomial_form (n c k : Z) :
  0 <= c <= n -> 1 <= k <= n ->
  (estimator n c k
   == 1 - inject_Z (comb (Z.to_nat (n - c)) (Z.to_nat k))
          / inject_Z (comb (Z.to_nat n) (Z.to_nat k)))%Q
  /\ get_pass_at_k n c k = estimator n c k.
Proof.
  intros Hc Hk. split; [|reflexivity].
  change (estimator n c k) with (get_pass_at_k n c k).
  now apply get_pass_at_k_binomial.
Qed.

Lemma estimator_is_binomial_form_witness :
  (estimator 5 1 2 == 1 - inject_Z (comb 4 2) / inject_Z (comb 5 2))%Q.
Proof.
  apply (estimator_is_binomial_form 5 1 2); lia.
Defined.

(** X9. Over exact rationals the formula of pass@1 is the fraction of
    passing trials: for n >= 1 and 0 <= c <= n, [get_pass_at_k n c 1] is
    c / n. The float64 value the program prints is this number up to the
    rounding of the product. *)
Theorem pass_at_1_is_pass_rate (n c : Z) :
  1 <= n -> 0 <= c <= n ->
  (get_pass_at_k n c 1 == inject_Z c / inject_Z n)%Q.
Proof.
  intros Hn Hc.
  rewrite (get_pass_at_k_binomial n c 1 Hc ltac:(lia)).
  change (Z.to_nat 1) with 1%nat. rewrite !comb_1, !Z2Nat.id by lia.
  assert (Hq : ~ (inject_Z n == 0)%Q).
  { unfold Qeq, inject_Z. cbn [Qnum Qden]. lia. }
  unfold Zminus. rewrite inject_Z_plus, inject_Z_opp. field. exact Hq.
Qed.

Lemma pass_at_1_is_pass_rate_witness :
  (get_pass_at_k 5 1 1 == inject_Z 1 / inject_Z 5)%Q.
Proof. apply (pass_at_1_is_pass_rate 5 1); lia. Defined.

Lemma big_prod_mono (f g : Z -> Q) (lo : Z) (len : nat) :
  (forall i, lo <= i < lo + Z.of_nat len -> (0 <= f i <= g i)%Q) ->
  (0 <= big_prod f lo len <= big_prod g lo len)%Q.
Proof.
  revert lo. induction len as [|len IH]; intros lo H.
  - cbn. split; lra.
  - cbn [big_prod].
    assert (H0 : (0 <= f lo <= g lo)%Q) by (apply H; lia).
    assert (H1 : (0 <= big_prod f (lo + 1) len <= big_prod g (lo + 1) len)%Q)
      by (apply IH; intros; apply H; lia).
    split; nra.
Qed.

Lemma big_prod_pos (f : Z -> Q) (lo : Z) (len : nat) :
  (forall i, lo <= i < lo + Z.of_nat len -> (0 < f i)%Q) ->
  (0 < big_prod f lo len)%Q.
Proof.
  revert lo. induction len as [|len IH]; intros lo H.
  - cbn. lra.
  - cbn [big_prod].
    assert (H0 : (0 < f lo)%Q) by (apply H; lia).
    assert (H1 : (0 < big_prod f (lo + 1) len)%Q)
      by (apply IH; intros; apply H; lia).
    nra.
Qed.

Lemma factor_order (k1 k2 i : Z) :
  0 <= k1 <= k2 -> k2 <= i -> 0 < i ->
  (0 <= one_minus_k_over k2 i <= one_minus_k_over k1 i)%Q.
Proof.
  intros Hk Hi Hpos. split; [apply factor_unit_interval; lia|].
  unfold one_minus_k_over.
  assert (Hq : (0 < inject_Z i)%Q)
    by (change 0%Q with (inject_Z 0); rewrite <- Zlt_Qlt; exact Hpos).
  assert (Hle : (inject_Z k1 <= inject_Z k2)%Q) by (rewrite <- Zle_Qle; lia).
  assert (Hd : (inject_Z k1 / inject_Z i <= inject_Z k2 / inject_Z i)%Q).
  { unfold Qdiv. apply Qmult_le_compat_r; [exact Hle|].
    apply Qlt_le_weak, Qinv_lt_0_compat, Hq. }
  lra.
Qed.

Lemma factor_strict (k i : Z) :
  1 <= k -> k < i -> (0 < one_minus_k_over k i < 1)%Q.
Proof.
  intros Hk Hi. unfold one_minus_k_over.
  assert (Hq : (0 < inject_Z i)%Q)
    by (change 0%Q with (inject_Z 0); rewrite <- Zlt_Qlt; lia).
  assert (H1 : (inject_Z k / inject_Z i < 1)%Q).
  { apply Qlt_shift_div_r; [exact Hq|]. rewrite Qmult_1_l, <- Zlt_Qlt. lia. }
  assert (H0 : (0 < inject_Z k / inject_Z i)%Q).
  { apply Qlt_shift_div_l; [exact Hq|]. rewrite Qmult_0_l.
    change 0%Q with (inject_Z 0). rewrite <- Zlt_Qlt. lia. }
  split; lra.
Qed.

(** X10. pass@k does not decrease with k: for n >= 1, 0 <= c <= n and
    1 <= k1 <= k2, [get_pass_at_k n c k1 <= get_pass_at_k n c k2]. *)
Theorem get_pass_at_k_monotone_in_k (n c k1 k2 : Z) :
  1 <= n -> 0 <= c <= n -> 1 <= k1 <= k2 ->
  (get_pass_at_k n c k1 <= get_pass_at_k n c k2)%Q.
Proof.
  intros Hn Hc Hk.
  destruct (Z.ltb_spec (n - c) k2) as [Hlt|Hge].
  - assert (E : get_pass_at_k n c k2 = 1%Q).
    { unfold get_pass_at_k. apply Z.ltb_lt in Hlt. now rewrite Hlt. }
    rewrite E. apply get_pass_at_k_unit_interval; lia.
  - rewrite (get_pass_at_k_product n c k1), (get_pass_at_k_product n c k2) by lia.
    assert (H : (0 <= big_prod (one_minus_k_over k2) (n - c + 1) (Z.to_nat c)
                 <= big_prod (one_minus_k_over k1) (n - c + 1) (Z.to_nat c))%Q).
    { apply big_prod_mono. intros i Hi. apply factor_order; lia. }
    lra.
Qed.

Lemma get_pass_at_k_monotone_in_k_witness :
  (get_pass_at_k 20 3 5 <= get_pass_at_k 20 3 10)%Q.
Proof. apply (get_pass_at_k_monotone_in_k 20 3 5 10); lia. Defined.

(** X11. A task with a passing trial never scores 0: for n >= 1,
    0 <= c <= n and 1 <= k <= n, [get_pass_at_k n c k] is 0 exactly when
    c = 0, and is strictly positive as soon as c >= 1. *)
Theorem get_pass_at_k_zero_iff_no_pass (n c k : Z) :
  1 <= n -> 0 <= c <= n -> 1 <= k <= n ->
  ((get_pass_at_k n c k == 0)%Q <-> c = 0)
  /\ (1 <= c -> (0 < get_pass_at_k n c k)%Q).
Proof.
  intros Hn Hc Hk.
  destruct (Z.ltb_spec (n - c) k) as [Hlt|Hge].
  - assert (E : get_pass_at_k n c k = 1%Q).
    { unfold get_pass_at_k. apply Z.ltb_lt in Hlt. now rewrite Hlt. }
    rewrite E. split; [split; intros H; [discriminate H|lia]|intros _; lra].
  - rewrite get_pass_at_k_product by lia.
    assert (Hpos : 1 <= c ->
              (big_prod (one_minus_k_over k) (n - c + 1) (Z.to_nat c) < 1)%Q).
    { intros H1.
      replace (Z.to_nat c) with (S (Z.to_nat (c - 1))) by lia.
      cbn [big_prod].
      assert (Hf : (0 < one_minus_k_over k (n - c + 1) < 1)%Q)
        by (apply factor_strict; lia).
      assert (Hr : (0 <= big_prod (one_minus_k_over k) (n - c + 1 + 1)
                             (Z.to_nat (c - 1)) <= 1)%Q).
      { apply big_prod_unit_interval. intros i Hi.
        apply factor_unit_interval; lia. }
      set (f := one_minus_k_over k (n - c + 1)) in *.
      set (P := big_prod (one_minus_k_over k) (n - c + 1 + 1) (Z.to_nat (c - 1))) in *.
      assert (Hm : (f * P <= f * 1)%Q) by (apply Qmult_le_l; lra).
      lra. }
    split; [split|].
    + intros H. destruct (Z.eq_dec c 0) as [E|E]; [exact E|exfalso].
      assert (H1 : 1 <= c) by lia. specialize (Hpos H1). lra.
    + intros ->. change (Z.to_nat 0) with 0%nat. cbn [big_prod]. lra.
    + intros H1. specialize (Hpos H1). lra.
Qed.

Lemma get_pass_at_k_zero_iff_no_pass_witness :
  (0 < get_pass_at_k 20 1 5)%Q.
Proof. apply (get_pass_at_k_zero_iff_no_pass 20 1 5); lia. Defined.

End EstimatorMoreClaims.

Section PassAtT.
Import Estimator EstimatorMore.

Lemma float_branch (n c k : Z) :
  negb (Qle_bool (inject_Z k) (inject_Z (n - c))) = (n - c <? k).
Proof.
  destruct (Z.ltb_spec (n - c) k) as [H|H].
  - apply negb_true_iff. destruct (Qle_bool _ _) eqn:E; [|reflexivity].
    apply Qle_bool_iff in E. rewrite <- Zle_Qle in E. lia.
  - apply negb_false_iff, Qle_bool_iff. rewrite <- Zle_Qle. lia.
Qed.

Lemma float_factor_unit_interval (k : Q) (i : Z) :
  (0 <= k)%Q -> (k <= inject_Z i)%Q -> 0 < i ->
  (0 <= one_minus_over k i <= 1)%Q.
Proof.
  intros Hk Hi Hpos. unfold one_minus_over.
  assert (Hq : (0 < inject_Z i)%Q)
    by (change 0%Q with (inject_Z 0); rewrite <- Zlt_Qlt; exact Hpos).
  assert (Hlo : (0 <= k / inject_Z i)%Q).
  { apply Qle_shift_div_l; [exact Hq|]. lra. }
  assert (Hhi : (k / inject_Z i <= 1)%Q).
  { apply Qle_shift_div_r; [exact Hq|]. lra. }
  split; lra.
Qed.

Lemma get_pass_at_k_float_unit_interval (n c : Z) (k : Q) :
  0 <= c <= n -> (0 < k)%Q -> (0 <= get_pass_at_k_float n c k <= 1)%Q.
Proof.
  intros Hc Hk. unfold get_pass_at_k_float.
  destruct (Qle_bool k (inject_Z (n - c))) eqn:E; cbn [negb]; [|split; lra].
  apply Qle_bool_iff in E.
  rewrite arange_window by lia. rewrite np_prod_seqZ.
  assert (H : (0 <= big_prod (one_minus_over k) (n - c + 1) (Z.to_nat c) <= 1)%Q).
  { apply big_prod_unit_interval. intros i Hi.
    assert (Hni : (inject_Z (n - c) <= inject_Z i)%Q) by (rewrite <- Zle_Qle; lia).
    assert (Hnc : (0 < inject_Z (n - c))%Q) by lra.
    change 0%Q with (inject_Z 0) in Hnc. rewrite <- Zlt_Qlt in Hnc.
    apply float_factor_unit_interval; [lra|lra|lia]. }
  split; lra.
Qed.

(** X12. Called with a float [k], as the pass@t loop does, the estimator is
    the integer one when [k] is an integer, and for every k > 0 with
    0 <= c <= n its value lies in [0, 1]. *)
Theorem get_pass_at_k_float_spec (n c : Z) (k : Q) :
  0 <= c <= n -> (0 < k)%Q ->
  (forall kz : Z, get_pass_at_k_float n c (inject_Z kz) = get_pass_at_k n c kz)
  /\ (0 <= get_pass_at_k_float n c k <= 1)%Q.
Proof.
  intros Hc Hk. split.
  - intros kz. unfold get_pass_at_k_float, get_pass_at_k.
    rewrite float_branch. reflexivity.
  - now apply get_pass_at_k_float_unit_interval.
Qed.

Lemma get_pass_at_k_float_spec_witness :
  (0 <= get_pass_at_k_float 10 3 (5 # 2) <= 1)%Q.
Proof.
  apply (get_pass_at_k_float_spec 10 3 (5 # 2)); [lia|reflexivity].
Defined.

Lemma round_half_even_ge_floor (x : Q) : Qfloor x <= round_half_even x.
Proof.
  unfold round_half_even. destruct (Qcompare _ _); [destruct (Z.even _)| |]; lia.
Qed.

Lemma round_half_even_pos (y : Q) : (1 <= y)%Q -> 1 <= round_half_even y.
Proof.
  intros H. pose proof (round_half_even_ge_floor y) as Hf.
  pose proof (Qfloor_resp_le 1 y H) as H1.
  change (Qfloor 1) with 1 in H1. lia.
Qed.

Lemma pow2_pos (e : Z) : (0 < 2 ^ e)%Q.
Proof. apply Qpower_0_lt. reflexivity. Qed.

Lemma pow2_split (a b : Z) :
  0 <= a -> 0 <= b ->
  ((2 ^ (a - b))%Q == inject_Z (2 ^ a) / inject_Z (2 ^ b))%Q.
Proof.
  intros Ha Hb. unfold Z.sub.
  rewrite Qpower_plus by (intros H; discriminate H).
  rewrite Qpower_opp. rewrite !Zpower_Qpower by assumption. reflexivity.
Qed.

Lemma quotient_bound (z p q A B : Z) :
  0 < q -> 0 < A -> 0 < B -> z * A * q < p * B ->
  (inject_Z z < (inject_Z p / inject_Z q) / (inject_Z A / inject_Z B))%Q.
Proof.
  intros Hq HA HB H.
  assert (Hq' : (0 < inject_Z q)%Q) by (change 0%Q with (inject_Z 0); now rewrite <- Zlt_Qlt).
  assert (HA' : (0 < inject_Z A)%Q) by (change 0%Q with (inject_Z 0); now rewrite <- Zlt_Qlt).
  assert (HB' : (0 < inject_Z B)%Q) by (change 0%Q with (inject_Z 0); now rewrite <- Zlt_Qlt).
  assert (HAB : (0 < inject_Z A / inject_Z B)%Q) by (apply Qlt_shift_div_l; lra).
  apply Qlt_shift_div_l; [exact HAB|].
  apply Qlt_shift_div_l; [exact Hq'|].
  assert (E : (inject_Z z * (inject_Z A / inject_Z B) * inject_Z q
               == inject_Z (z * A * q) / inject_Z B)%Q).
  { rewrite !inject_Z_mult. field. lra. }
  rewrite E. apply Qlt_shift_div_r; [exact HB'|].
  rewrite <- inject_Z_mult, <- Zlt_Qlt. exact H.
Qed.

Lemma scaled_above (x : Q) :
  (0 < x)%Q ->
  (inject_Z (2 ^ 51)
   < x / 2 ^ (Z.log2 (Qnum x) - Z.log2 (Zpos (Qden x)) - 52))%Q.
Proof.
  intros Hx. destruct x as [p q]. cbn [Qnum Qden].
  assert (Hp : 0 < p) by (unfold Qlt in Hx; cbn in Hx; lia).
  pose proof (Z.log2_spec p Hp) as [Hp1 _].
  pose proof (Z.log2_spec (Zpos q) ltac:(lia)) as [_ Hq2].
  pose proof (Z.log2_nonneg p) as Ha. pose proof (Z.log2_nonneg (Zpos q)) as Hb.
  set (a := Z.log2 p) in *. set (b := Z.log2 (Zpos q)) in *.
  replace (a - b - 52) with (a - (b + 52)) by lia.
  rewrite pow2_split by lia. rewrite (Qmake_Qdiv p q).
  apply quotient_bound;
    [lia|apply Z.pow_pos_nonneg; lia|apply Z.pow_pos_nonneg; lia|].
  replace (b + 52) with (51 + Z.succ b) by lia.
  rewrite (Z.pow_add_r 2 51 (Z.succ b)) by lia.
  assert (H51 : 0 < 2 ^ 51) by (apply Z.pow_pos_nonneg; lia).
  assert (HA : 0 < 2 ^ a) by (apply Z.pow_pos_nonneg; lia).
  set (u := 2 ^ 51) in *. set (A := 2 ^ a) in *. set (B := 2 ^ Z.succ b) in *.
  nia.
Qed.

Lemma round_pos_positive (x : Q) : (0 < x)%Q -> (0 < round_pos x)%Q.
Proof.
  intros Hx. unfold round_pos.
  set (e0 := Z.log2 (Qnum x) - Z.log2 (Zpos (Qden x)) - 52).
  pose proof (scaled_above x Hx) as Hs. fold e0 in Hs.
  set (e := if Qle_bool (inject_Z (2 ^ 52)) (x / 2 ^ e0) then e0 else e0 - 1).
  assert (Hy : (1 <= x / 2 ^ e)%Q).
  { subst e. destruct (Qle_bool (inject_Z (2 ^ 52)) (x / 2 ^ e0)) eqn:E.
    - apply Qle_bool_iff in E. apply Qle_trans with (inject_Z (2 ^ 52)); [|exact E].
      apply Qle_bool_iff. vm_compute. reflexivity.
    - assert (E2 : (2 ^ (e0 - 1) == 2 ^ e0 / 2)%Q).
      { unfold Z.sub. rewrite Qpower_plus by (intros H; discriminate H).
        reflexivity. }
      rewrite E2.
      assert (E3 : (x / (2 ^ e0 / 2) == 2 * (x / 2 ^ e0))%Q).
      { field. pose proof (pow2_pos e0). lra. }
      rewrite E3.
      assert (H51 : (1 <= inject_Z (2 ^ 51))%Q)
        by (apply Qle_bool_iff; vm_compute; reflexivity).
      lra. }
  pose proof (round_half_even_pos _ Hy) as Hm.
  assert (Hm' : (0 < inject_Z (round_half_even (x / 2 ^ e)))%Q).
  { change 0%Q with (inject_Z 0). rewrite <- Zlt_Qlt. lia. }
  pose proof (pow2_pos e) as He.
  apply Qmult_lt_0_compat; assumption.
Qed.

Lemma binary64_positive (x : Q) : (0 < x)%Q -> (0 < binary64 x)%Q.
Proof.
  intros Hx. unfold binary64.
  assert (E : Qcompare x 0 = Gt) by (apply Qgt_alt; exact Hx).
  rewrite E. now apply round_pos_positive.
Qed.

Lemma truediv_positive (x y : Q) : (0 < x)%Q -> (0 < y)%Q -> (0 < truediv x y)%Q.
Proof.
  intros Hx Hy. apply binary64_positive. apply Qlt_shift_div_l; lra.
Qed.

(** X13. A round of the pass@t loop, with its two divisions rounded as the
    machine rounds them. For a task with 1 <= total < 2^53 trials, of which
    count passed, a token count of at most 2^1000 and a budget t of the
    list (the bounds keep every quotient in the normal range of binary64):
    the round never divides by zero; it is skipped exactly when
    total_tokens < t; otherwise the effective k is positive, the recorded
    value lies in [0, 1], and it is 1 as soon as the effective k exceeds
    total - count. The effective k is not bounded by total: for 29 trials
    that used 500000 tokens and the budget 500000 it is rounded above 29,
    so the round records 1 for a task without a passing trial. *)
Theorem pass_at_t_round (total count : Z) (total_tokens : Q) (t : Z) :
  1 <= total < 2 ^ 53 -> 0 <= count <= total -> In t token_budgets ->
  (total_tokens <= inject_Z (2 ^ 1000))%Q ->
  pass_at_t total count total_tokens t <> DivisionByZero
  /\ (pass_at_t total count total_tokens t = Skipped
      <-> (total_tokens < inject_Z t)%Q)
  /\ (forall tk value,
        pass_at_t total count total_tokens t = Recorded tk value ->
        (0 < tk)%Q /\ (0 <= value <= 1)%Q
        /\ ((inject_Z (total - count) < tk)%Q -> value = 1%Q))
  /\ (exists tk,
        pass_at_t 29 0 (inject_Z 500000) 500000 = Recorded tk 1
        /\ (inject_Z 29 < tk)%Q).
Proof.
  intros Htot Hcnt Ht _. unfold pass_at_t at 1 2 3.
  assert (Ht1 : 1 <= t).
  { unfold token_budgets in Ht. cbn [In] in Ht. lia. }
  assert (Htq : (1 <= inject_Z t)%Q)
    by (change 1%Q with (inject_Z 1); rewrite <- Zle_Qle; exact Ht1).
  assert (Hnq : (1 <= inject_Z total)%Q)
    by (change 1%Q with (inject_Z 1); rewrite <- Zle_Qle; lia).
  split; [|split; [|split]].
  4:{ eexists. split; [vm_compute; reflexivity|vm_compute; reflexivity]. }
  all: destruct (Qle_bool (inject_Z t) total_tokens) eqn:E; cbn [negb].
  all: try (apply Qle_bool_iff in E).
  all: try (destruct (Z.eqb_spec total 0) as [?|_]; [lia|]).
  all: try (assert (Hmean : (0 < truediv total_tokens (inject_Z total))%Q)
              by (apply truediv_positive; lra);
            destruct (Qeq_bool (truediv total_tokens (inject_Z total)) 0) eqn:Ez;
            [apply Qeq_bool_iff in Ez; lra|]).
  - discriminate.
  - discriminate.
  - split; [discriminate|intros; lra].
  - split; [intros _|reflexivity].
    destruct (Qlt_le_dec total_tokens (inject_Z t)) as [H|H]; [exact H|].
    apply Qle_bool_iff in H. congruence.
  - intros tk value H. injection H as <- <-.
    assert (Htk : (0 < truediv (inject_Z t) (truediv total_tokens (inject_Z total)))%Q)
      by (apply truediv_positive; lra).
    split; [exact Htk|]. split.
    + apply get_pass_at_k_float_unit_interval; [lia|exact Htk].
    + intros Hlt. unfold get_pass_at_k_float.
      destruct (Qle_bool _ (inject_Z (total - count))) eqn:Eb; [|reflexivity].
      apply Qle_bool_iff in Eb. lra.
  - discriminate.
Qed.

Lemma pass_at_t_round_witness :
  pass_at_t 20 3 (inject_Z 9000) 1000 <> DivisionByZero.
Proof.
  assert (H1 : 1 <= 20 < 2 ^ 53) by lia.
  assert (H2 : 0 <= 3 <= 20) by lia.
  assert (H3 : In 1000 token_budgets) by (now left).
  assert (H4 : (inject_Z 9000 <= inject_Z (2 ^ 1000))%Q)
    by (apply Qle_bool_iff; vm_compute; reflexivity).
  exact (proj1 (pass_at_t_round 20 3 (inject_Z 9000) 1000 H1 H2 H3 H4)).
Defined.

End PassAtT.

(** ** Invariants of a trial *)

Section TrialInvariants.
Import Py Pipeline Summary Sample.

(** The shapes a run of [run_d4j_test] can take. *)
Lemma run_d4j_test_shapes (w : World) (source : string) (tms : list string)
    (b : string) (cls : list string) :
  let run := run_d4j_test w source tms b cls in
  let t := hd EmptyString tms in
  (List.filter is_subprocess_run (fst run) = []
   /\ exists n, List.filter is_popen (fst run)
                = take n [Popen (test_cmd ("/tmp/" +:+ b) t) 120;
                          Popen (coverage_cmd ("/tmp/" +:+ b) t) 180])
  /\ forall r, snd run = Ret r ->
       (bugg r = false -> compile_fail r = false /\ timed_out r = false)
       /\ (compile_fail r = false -> syntax_error r = false)
       /\ (timed_out r = true -> compile_fail r = false /\ bugg r = true)
       /\ (syntax_error r = true \/ compile_fail r = true \/ timed_out r = true ->
           bugg r = true /\ line_coverage r = 0%Q /\ condition_coverage r = 0%Q
           /\ lines_coverage_info r = []).
Proof.
  intros run t. subst run.
  destruct (javalang_parses w source) eqn:Hparse.
  2:{ rewrite (run_syntax_error w _ _ _ _ Hparse). cbn.
      split; [split; [reflexivity|exists 0%nat; reflexivity]|].
      intros r H. injection H as <-. cbn. intuition congruence. }
  destruct tms as [|t0 ts].
  { rewrite (run_no_testmethod w _ _ _ Hparse). cbn.
    split; [split; [reflexivity|exists 0%nat; reflexivity]|]. discriminate. }
  subst t. cbn [hd].
  destruct (popen w (test_cmd ("/tmp/" +:+ b) t0) 120) as [out|code|] eqn:Htest.
  2:{ rewrite (run_exit_nonzero w _ _ _ _ _ _ Hparse Htest). cbn.
      split; [split; [reflexivity|exists 1%nat; reflexivity]|].
      intros r H. injection H as <-. cbn. intuition congruence. }
  2:{ rewrite (run_deadline w _ _ _ _ _ Hparse Htest). cbn.
      split; [split; [reflexivity|exists 1%nat; reflexivity]|].
      intros r H. injection H as <-. cbn. intuition congruence. }
  destruct (trigger_bugg out) eqn:Htrig.
  { rewrite (run_no_marker w _ _ _ _ _ _ Hparse Htest Htrig). cbn.
    split; [split; [reflexivity|exists 1%nat; reflexivity]|].
    intros r H. injection H as <-. cbn. intuition congruence. }
  rewrite (run_marker w _ _ _ _ _ _ Hparse Htest Htrig).
  rewrite coverage_stage_unfold.
  destruct (popen w (coverage_cmd ("/tmp/" +:+ b) t0) 180) as [cov|code|];
    cbn [fst snd].
  - split; [split; [reflexivity|exists 2%nat; reflexivity]|].
    intros r H.
    destruct (snd (read_coverage w ("/tmp/" +:+ b) cov)) as [[[lc cc] info]|e];
      [|discriminate].
    injection H as <-. cbn. intuition congruence.
  - split; [split; [reflexivity|exists 2%nat; reflexivity]|].
    intros r H. injection H as <-. cbn. intuition congruence.
  - split; [split; [reflexivity|exists 2%nat; reflexivity]|].
    intros r H. injection H as <-. cbn. intuition congruence.
Qed.

End TrialInvariants.

Section TrialInvariantClaims.
Import Py Pipeline Summary Sample.

(** X14. The stage flags of every Outcome a trial returns are nested:
    [pass_trigger] implies [pass_compile] and no timeout, [pass_compile]
    implies [pass_syntax], a timeout comes with [pass_compile] and without
    [pass_trigger], and a trial that fails syntax or build or times out has
    [pass_trigger = false], zero coverage and no coverage record. *)
Theorem outcome_flags_nested (w : World) (rnd : string) (item : Item)
    (tr : list event) (o : Outcome) :
  validate_all_patches w rnd item = (tr, Ret o) ->
  (pass_trigger o = true -> pass_compile o = true /\ o_timed_out o = false)
  /\ (pass_compile o = true -> pass_syntax o = true)
  /\ (o_timed_out o = true -> pass_compile o = true /\ pass_trigger o = false)
  /\ (pass_syntax o = false \/ pass_compile o = false \/ o_timed_out o = true ->
      pass_trigger o = false /\ o_line_coverage o = 0%Q
      /\ o_condition_coverage o = 0%Q /\ o_lines_coverage_info o = []).
Proof.
  intros Hrun. rewrite validate_unfold in Hrun. cbv zeta in Hrun.
  set (run := run_d4j_test w _ _ _ _) in Hrun.
  destruct (run_d4j_test_shapes w
              (splice (source item) (patch item) (start item) (end_ item))
              (testmethods item) (tmp_folder rnd item) (be_test_classes item))
    as [_ Hinv].
  cbv zeta in Hinv. fold run in Hinv.
  destruct (snd run) as [r|e]; [|discriminate].
  injection Hrun as _ <-. specialize (Hinv r eq_refl).
  destruct Hinv as (H1 & H2 & H3 & H4). unfold outcome_of. cbn.
  rewrite !negb_true_iff, !negb_false_iff.
  repeat split; intros; intuition (try congruence).
  all: try (destruct (compile_fail r); intuition congruence).
Qed.

Lemma outcome_flags_nested_witness :
  match validate_all_patches world_pass "AbCd1234" item with
  | (_, Ret o) => pass_compile o = true -> pass_syntax o = true
  | (_, Raise _) => False
  end.
Proof.
  destruct (validate_all_patches world_pass "AbCd1234" item) as [tr [o|e]] eqn:Hrun.
  - exact (proj1 (proj2 (outcome_flags_nested world_pass "AbCd1234" item tr o Hrun))).
  - vm_compute in Hrun. discriminate.
Defined.

(** X15. The child processes of a trial: [rm -rf] and [defects4j checkout]
    always run first; the closing [rm -rf] runs exactly when the trial
    returns an Outcome, so a trial that raises leaves its workspace behind;
    and the [Popen] commands are a prefix of (test command with 120 s,
    coverage command with 180 s), so the coverage command is never launched
    before or without the test command, and neither is launched twice. *)
Theorem trial_subprocesses (w : World) (rnd : string) (item : Item) :
  let run := validate_all_patches w rnd item in
  let folder := tmp_folder rnd item in
  let t := hd EmptyString (testmethods item) in
  List.filter is_subprocess_run (fst run)
  = [rm_event folder; checkout_event item folder]
    ++ match snd run with Ret _ => [rm_event folder] | Raise _ => [] end
  /\ exists n, List.filter is_popen (fst run)
               = take n [Popen (test_cmd ("/tmp/" +:+ folder) t) 120;
                         Popen (coverage_cmd ("/tmp/" +:+ folder) t) 180].
Proof.
  intros run folder t. subst run. rewrite validate_unfold. cbv zeta.
  fold folder.
  set (inner := run_d4j_test w _ _ _ _).
  destruct (run_d4j_test_shapes w
              (splice (source item) (patch item) (start item) (end_ item))
              (testmethods item) folder (be_test_classes item))
    as [[Hsub [n Hpop]] _].
  cbv zeta in Hsub, Hpop. fold inner in Hsub, Hpop. fold t in Hpop.
  destruct (snd inner) as [r|e]; cbn [fst snd].
  - rewrite !List.filter_app, Hsub, Hpop. split; [reflexivity|].
    exists n. cbn. now rewrite app_nil_r.
  - rewrite !List.filter_app, Hsub, Hpop. split; [reflexivity|].
    exists n. reflexivity.
Qed.

End TrialInvariantClaims.

(** ** The per-task summary *)

Section SummaryFacts.
Import Py Pipeline Summary Aggregate Estimator.

#[local] Set Warnings "-clear-no-such-hyp".

Lemma count_if_cons (p : Outcome -> bool) (d : Outcome) (l : list Outcome) :
  count_if p (d :: l) = (if p d then 1 else 0) + count_if p l.
Proof. unfold count_if. cbn. destruct (p d); cbn [length]; lia. Qed.

Lemma count_if_bounds (p : Outcome -> bool) (l : list Outcome) :
  0 <= count_if p l <= Z.of_nat (length l).
Proof.
  unfold count_if. pose proof (List.filter_length_le p l). lia.
Qed.

Lemma fold_count_step (l : list Outcome) (c : counters) :
  fold_left count_step l c
  = {| total := total c + Z.of_nat (length l);
       pass_syntax_count := pass_syntax_count c + count_if pass_syntax l;
       pass_compile_count := pass_compile_count c + count_if pass_compile l;
       pass_trigger_count := pass_trigger_count c + count_if pass_trigger l;
       timed_out_count := timed_out_count c + count_if o_timed_out l |}.
Proof.
  revert c. induction l as [|d l IH]; intros c.
  - destruct c. cbn. unfold count_if. cbn. f_equal; lia.
  - cbn [fold_left]. rewrite IH, !count_if_cons. unfold count_step. cbn.
    destruct (pass_syntax d), (pass_compile d), (pass_trigger d), (o_timed_out d);
      f_equal; lia.
Qed.

Lemma count_details_spec (l : list Outcome) :
  count_details l
  = {| total := Z.of_nat (length l);
       pass_syntax_count := count_if pass_syntax l;
       pass_compile_count := count_if pass_compile l;
       pass_trigger_count := count_if pass_trigger l;
       timed_out_count := count_if o_timed_out l |}.
Proof. unfold count_details. rewrite fold_count_step. reflexivity. Qed.

Lemma count_if_le (p q : Outcome -> bool) (l : list Outcome) :
  Forall (fun d => p d = true -> q d = true) l ->
  count_if p l <= count_if q l.
Proof.
  induction 1 as [|d l Hd _ IH]; [reflexivity|].
  rewrite !count_if_cons. destruct (p d); [rewrite Hd by reflexivity|destruct (q d)]; lia.
Qed.

Lemma count_if_perm (p : Outcome -> bool) (l l' : list Outcome) :
  Permutation l l' -> count_if p l = count_if p l'.
Proof.
  induction 1 as [|d l l' _ IH|d d' l|l l' l'' _ IH1 _ IH2].
  - reflexivity.
  - rewrite !count_if_cons. lia.
  - rewrite !count_if_cons. lia.
  - congruence.
Qed.

Lemma in_pass_at_k_entries (n cnt k : Z) (v : Q) :
  In (k, v) (pass_at_k_entries n cnt)
  <-> In k ks /\ k <= n /\ v = get_pass_at_k n cnt k.
Proof.
  unfold pass_at_k_entries. rewrite in_flat_map. split.
  - intros (k' & Hin & H). destruct (Z.ltb_spec n k'); [destruct H|].
    destruct H as [H|[]]. injection H as -> ->. auto.
  - intros (Hin & Hle & ->). exists k. split; [exact Hin|].
    destruct (Z.ltb_spec n k); [lia|]. now left.
Qed.

(** Monotonicity in the number of passing trials, for sample sizes within
    the number of trials. *)
Lemma pass_at_k_grows_with_count (n k c1 c2 : Z) :
  1 <= k -> 0 <= c1 <= c2 -> c2 <= n ->
  (get_pass_at_k n c1 k <= get_pass_at_k n c2 k)%Q.
Proof.
  intros Hk Hc Hc2.
  destruct (Z.ltb_spec (n - c2) k) as [Hlt|Hge].
  - assert (E : get_pass_at_k n c2 k = 1%Q).
    { unfold get_pass_at_k. apply Z.ltb_lt in Hlt. now rewrite Hlt. }
    rewrite E. apply get_pass_at_k_unit_interval; lia.
  - rewrite (get_pass_at_k_product n c1 k), (get_pass_at_k_product n c2 k) by lia.
    replace (Z.to_nat c2) with (Z.to_nat (c2 - c1) + Z.to_nat c1)%nat by lia.
    rewrite big_prod_split.
    replace (n - c2 + 1 + Z.of_nat (Z.to_nat (c2 - c1))) with (n - c1 + 1) by lia.
    assert (Hd : (0 <= big_prod (one_minus_k_over k) (n - c2 + 1)
                          (Z.to_nat (c2 - c1)) <= 1)%Q).
    { apply big_prod_unit_interval. intros i Hi. apply factor_unit_interval; lia. }
    assert (Hw : (0 <= big_prod (one_minus_k_over k) (n - c1 + 1) (Z.to_nat c1) <= 1)%Q).
    { apply window_unit_interval; lia. }
    nra.
Qed.

Lemma ks_positive (k : Z) : In k ks -> 1 <= k.
Proof. unfold ks. cbn. intuition lia. Qed.

End SummaryFacts.

Section SummaryClaims.
Import Py Pipeline Summary Aggregate Estimator Sample.

#[local] Set Warnings "-clear-no-such-hyp".

Lemma outcome_stage_implications (w : World) (rnd : string) (item : Item)
    (tr : list event) (o : Outcome) :
  validate_all_patches w rnd item = (tr, Ret o) ->
  (pass_trigger o = true -> pass_compile o = true)
  /\ (pass_compile o = true -> pass_syntax o = true).
Proof.
  intros Hrun. rewrite validate_unfold in Hrun. cbv zeta in Hrun.
  set (run := run_d4j_test w _ _ _ _) in Hrun.
  destruct (run_d4j_test_shapes w
              (splice (source item) (patch item) (start item) (end_ item))
              (testmethods item) (tmp_folder rnd item) (be_test_classes item))
    as [_ Hinv].
  cbv zeta in Hinv. fold run in Hinv.
  destruct (snd run) as [r|e]; [|discriminate].
  injection Hrun as _ <-. destruct (Hinv r eq_refl) as (H1 & H2 & _).
  unfold outcome_of. cbn. rewrite !negb_true_iff. split.
  - intros Hb. now apply H1.
  - exact H2.
Qed.

(** X16. For every list of outcomes of a task, [total] is their number and
    each counter lies between 0 and [total]; the [pass@k-<k>] entries written
    for a stage are those of k in 1, 5, 10, 20, 100 with k <= total, and each
    value lies in [0, 1]. *)
Theorem summary_counts_and_entries (bug_results : list Outcome) :
  let c := count_details bug_results in
  total c = Z.of_nat (length bug_results)
  /\ 0 <= pass_syntax_count c <= total c
  /\ 0 <= pass_compile_count c <= total c
  /\ 0 <= pass_trigger_count c <= total c
  /\ 0 <= timed_out_count c <= total c
  /\ (forall cnt k, 0 <= cnt <= total c ->
        (exists v, In (k, v) (pass_at_k_entries (total c) cnt))
        <-> In k ks /\ k <= total c)
  /\ (forall cnt k v, 0 <= cnt <= total c ->
        In (k, v) (pass_at_k_entries (total c) cnt) -> (0 <= v <= 1)%Q).
Proof.
  intros c. subst c. rewrite count_details_spec. cbn [total pass_syntax_count
    pass_compile_count pass_trigger_count timed_out_count].
  split; [reflexivity|].
  repeat (split; [apply count_if_bounds|]).
  split.
  - intros cnt k Hcnt. split.
    + intros [v H]. apply in_pass_at_k_entries in H. tauto.
    + intros [Hin Hle]. eexists. apply in_pass_at_k_entries.
      split; [exact Hin|]. split; [exact Hle|reflexivity].
  - intros cnt k v Hcnt H. apply in_pass_at_k_entries in H as (Hin & Hle & ->).
    apply get_pass_at_k_unit_interval; [lia|now apply ks_positive].
Qed.

(** X17. For outcomes that trials returned, the counters are ordered
    pass_trigger <= pass_compile <= pass_syntax <= total, and so are the
    pass@k values of the three stages for every k that is written. *)
Theorem stage_counts_ordered (bug_results : list Outcome) :
  Forall (fun o => exists w rnd item tr,
                     validate_all_patches w rnd item = (tr, Ret o)) bug_results ->
  let c := count_details bug_results in
  pass_trigger_count c <= pass_compile_count c
  /\ pass_compile_count c <= pass_syntax_count c
  /\ pass_syntax_count c <= total c
  /\ (forall k, In k ks -> k <= total c ->
        (get_pass_at_k (total c) (pass_trigger_count c) k
         <= get_pass_at_k (total c) (pass_compile_count c) k)%Q
        /\ (get_pass_at_k (total c) (pass_compile_count c) k
            <= get_pass_at_k (total c) (pass_syntax_count c) k)%Q).
Proof.
  intros Hall c. subst c. rewrite count_details_spec. cbn [total pass_syntax_count
    pass_compile_count pass_trigger_count timed_out_count].
  assert (H1 : count_if pass_trigger bug_results <= count_if pass_compile bug_results).
  { apply count_if_le. eapply Forall_impl; [exact Hall|].
    intros o (w & rnd & item & tr & Hrun) Hp.
    now apply (outcome_stage_implications w rnd item tr o Hrun). }
  assert (H2 : count_if pass_compile bug_results <= count_if pass_syntax bug_results).
  { apply count_if_le. eapply Forall_impl; [exact Hall|].
    intros o (w & rnd & item & tr & Hrun) Hp.
    now apply (outcome_stage_implications w rnd item tr o Hrun). }
  pose proof (count_if_bounds pass_syntax bug_results) as H3.
  pose proof (count_if_bounds pass_trigger bug_results) as H4.
  split; [exact H1|]. split; [exact H2|]. split; [lia|].
  intros k Hin Hle. apply ks_positive in Hin.
  split; apply pass_at_k_grows_with_count; lia.
Qed.

Lemma stage_counts_ordered_witness :
  pass_trigger_count (count_details [outcome_of item (failed_result false true)])
  <= pass_compile_count (count_details [outcome_of item (failed_result false true)]).
Proof.
  apply (stage_counts_ordered [outcome_of item (failed_result false true)]).
  constructor; [|constructor].
  exists world_hang, "AbCd1234", item,
         (fst (validate_all_patches world_hang "AbCd1234" item)).
  vm_compute. reflexivity.
Defined.

End SummaryClaims.

Section SummaryOrder.
Import Py Pipeline Summary Aggregate Estimator Sample.

#[local] Set Warnings "-clear-no-such-hyp".

Lemma diff_coverage_set_perm (l l' : list Outcome) :
  Permutation l l' -> diff_coverage_set l = diff_coverage_set l'.
Proof.
  intros Hp. apply leibniz_equiv, set_equiv. intros r.
  rewrite !elem_of_diff_coverage_set, !observed_spec.
  split; intros (d & Hd & Hr); exists d; split; try exact Hr.
  - now rewrite <- Hp.
  - now rewrite Hp.
Qed.

(** X18. The summary of a task does not depend on the order in which its
    trials complete: permuting the outcomes leaves the counters, the set of
    coverage records, [diff_coverage] and the pass@k entries unchanged. *)
Theorem summary_order_independent (l l' : list Outcome) :
  Permutation l l' ->
  count_details l = count_details l'
  /\ diff_coverage_set l = diff_coverage_set l'
  /\ diff_coverage l = diff_coverage l'
  /\ pass_at_k_entries (total (count_details l)) (pass_trigger_count (count_details l))
     = pass_at_k_entries (total (count_details l'))
                         (pass_trigger_count (count_details l')).
Proof.
  intros Hp.
  assert (Hc : count_details l = count_details l').
  { rewrite !count_details_spec.
    rewrite (Permutation_length Hp).
    now rewrite !(count_if_perm _ l l' Hp). }
  assert (Hs : diff_coverage_set l = diff_coverage_set l')
    by now apply diff_coverage_set_perm.
  split; [exact Hc|]. split; [exact Hs|]. split.
  - unfold diff_coverage. now rewrite Hs.
  - now rewrite Hc.
Qed.

Lemma summary_order_independent_witness :
  count_details [outcome_with [line3 true]; outcome_with []]
  = count_details [outcome_with []; outcome_with [line3 true]].
Proof.
  apply (summary_order_independent
           [outcome_with [line3 true]; outcome_with []]
           [outcome_with []; outcome_with [line3 true]]).
  apply perm_swap.
Defined.

(** X19. [diff_coverage] is a ratio in [0, 1], and when no trial of the task
    reported a coverage record it is 0 without any division. *)
Theorem diff_coverage_unit_interval (bug_results : list Outcome) :
  (0 <= diff_coverage bug_results <= 1)%Q
  /\ (Forall (fun d => o_lines_coverage_info d = []) bug_results ->
      diff_coverage bug_results = 0%Q).
Proof.
  split.
  - unfold diff_coverage.
    set (l := elements (diff_coverage_set bug_results)).
    destruct (Nat.eqb_spec (length l) 0) as [_|Hne]; [split; lra|].
    pose proof (List.filter_length_le hit l) as Hle.
    assert (Hpos : (0 < inject_Z (Z.of_nat (length l)))%Q).
    { change 0%Q with (inject_Z 0). rewrite <- Zlt_Qlt. lia. }
    split.
    + apply Qle_shift_div_l; [exact Hpos|]. rewrite Qmult_0_l.
      change 0%Q with (inject_Z 0). rewrite <- Zle_Qle. lia.
    + apply Qle_shift_div_r; [exact Hpos|]. rewrite Qmult_1_l.
      rewrite <- Zle_Qle. lia.
  - intros Hall.
    assert (Hs : diff_coverage_set bug_results = ∅).
    { apply leibniz_equiv, set_equiv. intros r.
      rewrite elem_of_diff_coverage_set, observed_spec. split; [|set_solver].
      intros (d & Hd & Hr). rewrite Forall_forall in Hall.
      rewrite (Hall d Hd) in Hr. inversion Hr. }
    unfold diff_coverage. rewrite Hs. reflexivity.
Qed.

End SummaryOrder.

(** ** Spans outside the file *)

Section SpliceEdges.
Import Py Pipeline.

(** X20. The splice accepts every pair of integers and never pads: the lines
    of the result are [source[:start]], the candidate's lines and
    [source[end+1:]] under Python's slicing. With end = start - 1 inside the
    file nothing is removed; with start at or past the end of the file and
    end at or past its last line the candidate is appended; with end = -1
    the whole source follows the candidate again. *)
Theorem splice_any_span (source patch : string) (start end_ : Z) :
  let src := split_on nl source in
  let cand := split_on nl patch in
  split_on nl (splice source patch start end_)
  = slice_to src start ++ cand ++ slice_from src (end_ + 1)
  /\ (0 <= start <= Z.of_nat (length src) -> end_ = start - 1 ->
      split_on nl (splice source patch start end_)
      = take (Z.to_nat start) src ++ cand ++ drop (Z.to_nat start) src)
  /\ (Z.of_nat (length src) <= start -> Z.of_nat (length src) - 1 <= end_ ->
      split_on nl (splice source patch start end_) = src ++ cand)
  /\ (end_ = -1 ->
      split_on nl (splice source patch start end_)
      = slice_to src start ++ cand ++ src).
Proof.
  intros src cand. rewrite split_on_splice. fold src cand.
  split; [reflexivity|]. split; [|split].
  - intros Hs ->. unfold slice_to, slice_from.
    rewrite !norm_index_in_range by lia.
    replace (Z.to_nat (start - 1 + 1)) with (Z.to_nat start) by lia. reflexivity.
  - intros Hs He. unfold slice_to, slice_from, norm_index.
    destruct (Z.ltb_spec start 0); [lia|].
    destruct (Z.ltb_spec (end_ + 1) 0); [lia|].
    rewrite take_ge by lia. rewrite drop_ge by lia. now rewrite app_nil_r.
  - intros ->. unfold slice_from. change (-1 + 1) with 0.
    rewrite norm_index_in_range by lia. reflexivity.
Qed.

Lemma splice_any_span_witness :
  split_on nl (splice ("a" +:+ LF +:+ "b") "P" 1 0) = ["a"; "P"; "b"].
Proof.
  apply (splice_any_span ("a" +:+ LF +:+ "b") "P" 1 0).
  - vm_compute. split; discriminate.
  - reflexivity.
Defined.

End SpliceEdges.

(** ** Scoring in the MBPP evaluator *)

Section MbppFacts.
Import Py Estimator Mbpp.

Lemma fold_Qplus_acc (xs : list Q) (a : Q) :
  (fold_left Qplus xs a == a + fold_left Qplus xs 0)%Q.
Proof.
  revert a. induction xs as [|x xs IH]; intros a; cbn [fold_left].
  - ring.
  - rewrite (IH (a + x)%Q), (IH (0 + x)%Q). ring.
Qed.

Lemma sum_unit_interval (xs : list Q) :
  Forall (fun x => (0 <= x <= 1)%Q) xs ->
  (0 <= fold_left Qplus xs 0 <= inject_Z (Z.of_nat (length xs)))%Q.
Proof.
  induction 1 as [|x xs Hx _ IH].
  - cbn [fold_left length]. change (inject_Z (Z.of_nat 0)) with 0%Q.
    split; apply Qle_refl.
  - cbn [fold_left length]. rewrite fold_Qplus_acc.
    rewrite Nat2Z.inj_succ. unfold Z.succ. rewrite inject_Z_plus.
    change (inject_Z 1) with 1%Q. split; lra.
Qed.

Lemma np_mean_unit_interval (xs : list Q) (m : Q) :
  Forall (fun x => (0 <= x <= 1)%Q) xs ->
  np_mean xs = Some m -> (0 <= m <= 1)%Q.
Proof.
  intros Hall Hm. destruct xs as [|x xs]; [discriminate|].
  injection Hm as <-. pose proof (sum_unit_interval _ Hall) as Hs.
  set (s := fold_left Qplus (x :: xs) 0%Q) in *.
  set (n := inject_Z (Z.of_nat (length (x :: xs)))) in *.
  assert (Hn : (0 < n)%Q).
  { subst n. change 0%Q with (inject_Z 0). rewrite <- Zlt_Qlt. cbn [length]. lia. }
  split.
  - apply Qle_shift_div_l; [exact Hn|]. rewrite Qmult_0_l. apply Hs.
  - apply Qle_shift_div_r; [exact Hn|]. rewrite Qmult_1_l. apply Hs.
Qed.

Lemma length_totals_corrects (outcomes : list (list bool)) :
  length (totals outcomes) = length (corrects outcomes).
Proof. unfold totals, corrects. now rewrite !length_map. Qed.

Lemma estimate_of_outcomes (outcomes : list (list bool)) (k : Z) :
  estimate_pass_at_k (Array (totals outcomes)) (corrects outcomes) k
  = Some (map (fun passed =>
                 estimator (Z.of_nat (length passed))
                           (Z.of_nat (length (List.filter id passed))) k)
              (results_values outcomes)).
Proof.
  unfold estimate_pass_at_k. rewrite length_totals_corrects, Nat.eqb_refl.
  f_equal. unfold totals, corrects.
  induction (results_values outcomes) as [|r rs IH]; [reflexivity|].
  cbn. now rewrite IH.
Qed.

Lemma in_compute_code_eval (outcomes : list (list bool)) (ks : list Z)
    (k : Z) (v : option Q) :
  In (k, v) (compute_code_eval outcomes ks)
  <-> In k ks
      /\ Forall (fun passed => k <= Z.of_nat (length passed)) (results_values outcomes)
      /\ v = np_mean (map (fun passed =>
                             estimator (Z.of_nat (length passed))
                               (Z.of_nat (length (List.filter id passed))) k)
                          (results_values outcomes)).
Proof.
  unfold compute_code_eval. rewrite in_flat_map.
  assert (Hall : forall k', forallb (fun n => k' <=? n) (totals outcomes) = true
                   <-> Forall (fun passed => k' <= Z.of_nat (length passed))
                              (results_values outcomes)).
  { intros k'. rewrite forallb_forall, Forall_forall. unfold totals. split.
    - intros H passed Hin. apply Z.leb_le, H, in_map_iff.
      exists passed. split; [reflexivity|]. now apply list_elem_of_In.
    - intros H n Hin. apply in_map_iff in Hin as (passed & <- & Hin).
      apply Z.leb_le, H. now apply list_elem_of_In. }
  split.
  - intros (k' & Hin & H).
    destruct (forallb (fun n => k' <=? n) (totals outcomes)) eqn:E; [|destruct H].
    rewrite estimate_of_outcomes in H. destruct H as [H|[]].
    injection H as -> ->. split; [exact Hin|]. split; [now apply Hall|reflexivity].
  - intros (Hin & Hforall & ->). exists k. split; [exact Hin|].
    apply Hall in Hforall. rewrite Hforall, estimate_of_outcomes. now left.
Qed.

End MbppFacts.

Section MbppClaims.
Import Py Estimator Mbpp.

Lemma estimator_unit_interval (n c k : Z) :
  0 <= c -> 1 <= k -> (0 <= estimator n c k <= 1)%Q.
Proof. exact (get_pass_at_k_unit_interval n c k). Qed.

(** X21. The [pass_at_k] dictionary of [compute_code_eval]: [k] is reported
    exactly when every task that has a candidate has at least [k] of them;
    the reported value is the mean of the per-task estimates; it lies in
    [0, 1] as soon as one task has a candidate, and when none has one every
    [k] asked for is reported as nan. *)
Theorem compute_code_eval_spec (outcomes : list (list bool)) (ks : list Z) :
  Forall (fun k => 1 <= k) ks ->
  (forall k v,
     In (k, v) (compute_code_eval outcomes ks)
     <-> In k ks
         /\ Forall (fun passed => passed = [] \/ k <= Z.of_nat (length passed)) outcomes
         /\ v = np_mean (map (fun passed =>
                                estimator (Z.of_nat (length passed))
                                  (Z.of_nat (length (List.filter id passed))) k)
                             (results_values outcomes)))
  /\ (Exists (fun passed => passed <> []) outcomes ->
      forall k v, In (k, v) (compute_code_eval outcomes ks) ->
                  exists q, v = Some q /\ (0 <= q <= 1)%Q)
  /\ (Forall (fun passed => passed = []) outcomes ->
      compute_code_eval outcomes ks = map (fun k => (k, None)) ks).
Proof.
  intros Hks.
  assert (Hrep : forall k,
             Forall (fun passed => k <= Z.of_nat (length passed)) (results_values outcomes)
             <-> Forall (fun passed => passed = [] \/ k <= Z.of_nat (length passed)) outcomes).
  { intros k. unfold results_values. rewrite !Forall_forall. split.
    - intros H passed Hin. destruct passed as [|b passed]; [now left|right].
      apply H. apply list_elem_of_In, filter_In. split; [now apply list_elem_of_In|reflexivity].
    - intros H passed Hin. apply list_elem_of_In, filter_In in Hin as (Hin & Hne).
      destruct (H passed) as [->|Hle]; [now apply list_elem_of_In|discriminate|exact Hle]. }
  split; [|split].
  - intros k v. rewrite in_compute_code_eval, Hrep. reflexivity.
  - intros Hex k v Hin. apply in_compute_code_eval in Hin as (Hk & _ & ->).
    assert (Hne : results_values outcomes <> []).
    { apply Exists_exists in Hex as (passed & Hin & Hp).
      assert (Hin' : In passed (results_values outcomes)).
      { apply filter_In. split; [now apply list_elem_of_In|].
        destruct passed; [contradiction|reflexivity]. }
      intros E. rewrite E in Hin'. destruct Hin'. }
    destruct (np_mean _) as [q|] eqn:E.
    + exists q. split; [reflexivity|].
      revert E. apply np_mean_unit_interval.
      apply Forall_forall. intros x Hx.
      apply list_elem_of_In, in_map_iff in Hx as (passed & <- & _).
      apply estimator_unit_interval; [lia|].
      rewrite Forall_forall in Hks. apply Hks. now apply list_elem_of_In.
    + destruct (results_values outcomes); [contradiction|discriminate].
  - intros Hall.
    assert (Hnil : results_values outcomes = []).
    { clear Hrep. unfold results_values.
      induction Hall as [|x l -> _ IH]; [reflexivity|exact IH]. }
    unfold compute_code_eval, totals, corrects. rewrite Hnil. cbn.
    clear. induction ks as [|k ks IH]; [reflexivity|]. cbn. now rewrite IH.
Qed.

Lemma compute_code_eval_spec_witness :
  compute_code_eval [[true; false]; []; [false; true; true]] [1; 2; 3]
  = [(1, Some (14 # 24)); (2, Some (2 # 2))]
  /\ exists q, Some (14 # 24) = Some q /\ (0 <= q <= 1)%Q.
Proof.
  assert (Hks : Forall (fun k => 1 <= k) [1; 2; 3]) by (repeat constructor; lia).
  split; [vm_compute; reflexivity|].
  apply (proj1 (proj2 (compute_code_eval_spec
                         [[true; false]; []; [false; true; true]] [1; 2; 3] Hks))
           ltac:(left; discriminate) 1).
  vm_compute. now left.
Defined.

End MbppClaims.

Section MbppEvaluate.
Import Py Estimator Mbpp.

(** The value stored for one task under the key of [k]. *)
Lemma single_task_dict (gens : list bool) (ks : list Z) :
  compute_code_eval [gens] ks
  = flat_map (fun k =>
                if reported gens k
                then [(k, np_mean (map (fun passed =>
                                          estimator (Z.of_nat (length passed))
                                            (Z.of_nat (length (List.filter id passed))) k)
                                       (results_values [gens])))]
                else [])
             ks.
Proof.
  unfold compute_code_eval. apply flat_map_ext. intros k.
  rewrite estimate_of_outcomes.
  replace (forallb (fun n => k <=? n) (totals [gens])) with (reported gens k);
    [reflexivity|].
  unfold reported, totals, results_values. destruct gens as [|b gens]; [reflexivity|].
  cbn [List.filter is_nil negb map forallb orb]. now rewrite andb_true_r.
Qed.

Lemma single_task_keys (gens : list bool) (ks : list Z) :
  map fst (compute_code_eval [gens] ks) = List.filter (reported gens) ks.
Proof.
  rewrite single_task_dict. induction ks as [|k ks IH]; [reflexivity|].
  cbn [flat_map List.filter]. destruct (reported gens k).
  - cbn [app map fst]. f_equal. exact IH.
  - exact IH.
Qed.

Lemma dict_getitem_single (gens : list bool) (ks : list Z) (k : Z) :
  dict_getitem k (compute_code_eval [gens] ks)
  = if existsb (Z.eqb k) ks && reported gens k
    then Ret (np_mean (map (fun passed =>
                              estimator (Z.of_nat (length passed))
                                (Z.of_nat (length (List.filter id passed))) k)
                           (results_values [gens])))
    else Raise (KeyError (key k)).
Proof.
  rewrite single_task_dict. induction ks as [|k' ks IH]; [reflexivity|].
  cbn [flat_map existsb]. destruct (Z.eqb_spec k k') as [E|Hne].
  - subst k'. cbn [orb andb]. destruct (reported gens k) eqn:E.
    + cbn [app dict_getitem]. now rewrite Z.eqb_refl.
    + cbn [app]. rewrite IH. now rewrite andb_false_r.
  - cbn [orb]. destruct (reported gens k').
    + cbn [app dict_getitem]. destruct (Z.eqb_spec k' k); [congruence|exact IH].
    + exact IH.
Qed.

Lemma column_shape (k : Z) (all_results : list (list (Z * option Q))) :
  (exists vs, column k all_results = Ret vs)
  \/ column k all_results = Raise (KeyError (key k)).
Proof.
  assert (Hd : forall item, (exists v, dict_getitem k item = Ret v)
                            \/ dict_getitem k item = Raise (KeyError (key k))).
  { induction item as [|[k' v] item IH]; [now right|].
    cbn [dict_getitem]. destruct (k' =? k); [left; now exists v|exact IH]. }
  induction all_results as [|item rest IH]; [left; now exists []|].
  cbn [column]. destruct (Hd item) as [(v & ->)| ->]; [|now right].
  destruct IH as [(vs & ->)| ->]; [left; now exists (v :: vs)|now right].
Qed.

Lemma column_single (ks : list Z) (k : Z) (generations : list (list bool)) :
  In k ks ->
  column k (map (fun gens => compute_code_eval [gens] ks) generations)
  = if forallb (fun gens => reported gens k) generations
    then Ret (map (fun gens =>
                     np_mean (map (fun passed =>
                                     estimator (Z.of_nat (length passed))
                                       (Z.of_nat (length (List.filter id passed))) k)
                                  (results_values [gens])))
                  generations)
    else Raise (KeyError (key k)).
Proof.
  intros Hk.
  assert (Hex : existsb (Z.eqb k) ks = true).
  { apply existsb_exists. exists k. split; [exact Hk|apply Z.eqb_refl]. }
  induction generations as [|gens rest IH]; [reflexivity|].
  cbn [map column forallb]. rewrite dict_getitem_single, Hex. cbn [andb].
  destruct (reported gens k); [|reflexivity].
  rewrite IH. cbn [andb]. now destruct (forallb _ rest).
Qed.

Lemma means_ok (keys : list Z) (all_results : list (list (Z * option Q))) :
  (forall k, In k keys -> exists vs, column k all_results = Ret vs) ->
  exists entries,
    means keys all_results = Ret entries
    /\ map fst entries = keys
    /\ forall k v, In (k, v) entries ->
                   exists vs, column k all_results = Ret vs /\ v = np_mean_nan vs.
Proof.
  induction keys as [|k keys IH]; intros Hcol.
  - exists []. repeat split. intros k v [].
  - destruct (Hcol k (or_introl eq_refl)) as (vs & Hvs).
    destruct IH as (entries & He & Hk & Hv).
    { intros k' Hin. apply Hcol. now right. }
    exists ((k, np_mean_nan vs) :: entries). cbn [means]. rewrite Hvs, He.
    split; [reflexivity|]. split; [cbn; now rewrite Hk|].
    intros k' v [E|Hin]; [injection E as <- <-; now exists vs|now apply Hv].
Qed.

Lemma means_fail (keys : list Z) (all_results : list (list (Z * option Q))) (k : Z) :
  In k keys -> column k all_results = Raise (KeyError (key k)) ->
  exists k', In k' keys /\ means keys all_results = Raise (KeyError (key k')).
Proof.
  induction keys as [|k0 keys IH]; intros Hin Hk; [destruct Hin|].
  cbn [means]. destruct (column_shape k0 all_results) as [(vs & Hvs)|Hr].
  - rewrite Hvs. destruct Hin as [->|Hin]; [congruence|].
    destruct (IH Hin Hk) as (k' & Hk' & ->). exists k'. split; [now right|reflexivity].
  - rewrite Hr. exists k0. split; [now left|reflexivity].
Qed.

Lemma np_mean_nan_unit_interval (vs : list (option Q)) :
  vs <> [] ->
  Forall (fun v => exists q, v = Some q /\ (0 <= q <= 1)%Q) vs ->
  exists q, np_mean_nan vs = Some q /\ (0 <= q <= 1)%Q.
Proof.
  intros Hne Hall. unfold np_mean_nan.
  assert (Hb : forallb (fun x : option Q => match x with Some _ => true | None => false end) vs = true).
  { apply forallb_forall. intros x Hx. rewrite Forall_forall in Hall.
    destruct (Hall x) as (q & -> & _); [now apply list_elem_of_In|reflexivity]. }
  rewrite Hb.
  set (qs := flat_map (fun x : option Q => match x with Some q => [q] | None => [] end) vs).
  assert (Hqs : Forall (fun x => (0 <= x <= 1)%Q) qs).
  { subst qs. clear Hne Hb. induction Hall as [|v l (q & -> & Hq) _ IH]; [constructor|].
    cbn [flat_map app]. constructor; [exact Hq|exact IH]. }
  assert (Hq0 : qs <> []).
  { subst qs. destruct Hall as [|v l (q & -> & _) _]; [contradiction|discriminate]. }
  destruct (np_mean qs) as [m|] eqn:E.
  - exists m. split; [reflexivity|]. exact (np_mean_unit_interval qs m Hqs E).
  - destruct qs; [contradiction|discriminate].
Qed.

(** X22. [MBPP.evaluate]: an empty batch raises [IndexError].  Otherwise the
    keys are those of the first task; the call returns, with exactly these
    keys in the order of the list of [k], when every other task also has each
    of them, and raises [KeyError] for one of the keys when some other task
    lacks one, as happens when a later task has fewer outputs.  When it
    returns and every task has an output, each value lies in [0, 1]. *)
Theorem mbpp_evaluate_spec :
  evaluate [] = Raise IndexError
  /\ forall first rest,
       ((forall k gens, In k evaluate_ks -> reported first k = true ->
                        In gens rest -> reported gens k = true) ->
        exists entries,
          evaluate (first :: rest) = Ret entries
          /\ map fst entries = List.filter (reported first) evaluate_ks
          /\ (Forall (fun gens => gens <> []) (first :: rest) ->
              forall k v, In (k, v) entries ->
                          exists q, v = Some q /\ (0 <= q <= 1)%Q))
       /\ (forall k gens, In k evaluate_ks -> reported first k = true ->
                          In gens rest -> reported gens k = false ->
           exists k', In k' evaluate_ks
                      /\ evaluate (first :: rest) = Raise (KeyError (key k'))).
Proof.
  split; [reflexivity|]. intros first rest.
  assert (Hks : Forall (fun k => 1 <= k) evaluate_ks) by (repeat constructor; lia).
  unfold evaluate. cbn [map]. rewrite single_task_keys.
  change (compute_code_eval [first] evaluate_ks
          :: map (fun gens => compute_code_eval [gens] evaluate_ks) rest)
    with (map (fun gens => compute_code_eval [gens] evaluate_ks) (first :: rest)).
  set (all_results := map (fun gens => compute_code_eval [gens] evaluate_ks) (first :: rest)).
  split.
  - intros Hrest.
    assert (Hcol : forall k, In k (List.filter (reported first) evaluate_ks) ->
                   column k all_results
                   = Ret (map (fun gens =>
                                 np_mean (map (fun passed =>
                                     estimator (Z.of_nat (length passed))
                                       (Z.of_nat (length (List.filter id passed))) k)
                                   (results_values [gens])))
                              (first :: rest))).
    { intros k Hin. apply filter_In in Hin as (Hin & Hfirst).
      subst all_results. rewrite (column_single evaluate_ks k (first :: rest) Hin).
      replace (forallb (fun gens => reported gens k) (first :: rest)) with true;
        [reflexivity|].
      symmetry. apply forallb_forall. intros gens [<-|Hg]; [exact Hfirst|].
      now apply (Hrest k gens). }
    destruct (means_ok (List.filter (reported first) evaluate_ks) all_results)
      as (entries & He & Hkeys & Hvals).
    { intros k Hin. eexists. now apply Hcol. }
    exists entries. split; [exact He|]. split; [exact Hkeys|].
    intros Hne k v Hin. destruct (Hvals k v Hin) as (vs & Hvs & ->).
    assert (Hk : In k (List.filter (reported first) evaluate_ks)).
    { rewrite <- Hkeys. apply in_map_iff. now exists (k, np_mean_nan vs). }
    rewrite (Hcol k Hk) in Hvs. injection Hvs as <-.
    apply np_mean_nan_unit_interval; [discriminate|].
    apply Forall_forall. intros v Hv.
    apply list_elem_of_In in Hv.
    change (In v (map (fun gens =>
                         np_mean (map (fun passed =>
                             estimator (Z.of_nat (length passed))
                               (Z.of_nat (length (List.filter id passed))) k)
                           (results_values [gens])))
                      (first :: rest))) in Hv.
    apply in_map_iff in Hv as (gens & <- & Hg).
    rewrite Forall_forall in Hne.
    assert (Hgne : gens <> []) by (apply Hne; now apply list_elem_of_In).
    destruct gens as [|b gens]; [contradiction|].
    change (results_values [b :: gens]) with [b :: gens]. cbn [map].
    destruct (np_mean [_]) as [m|] eqn:E; [|unfold np_mean in E; discriminate E].
    exists m. split; [reflexivity|]. revert E. apply np_mean_unit_interval.
    constructor; [|constructor]. apply estimator_unit_interval; [lia|].
    apply filter_In in Hk as (Hk & _). rewrite Forall_forall in Hks.
    apply Hks. now apply list_elem_of_In.
  - intros k gens Hk Hfirst Hg Hmiss.
    destruct (means_fail (List.filter (reported first) evaluate_ks) all_results k)
      as (k' & Hk' & Hr).
    + apply filter_In. now split.
    + subst all_results. rewrite (column_single evaluate_ks k (first :: rest) Hk).
      replace (forallb (fun gens => reported gens k) (first :: rest)) with false;
        [reflexivity|].
      symmetry. apply not_true_is_false. intros Hall.
      rewrite forallb_forall in Hall. specialize (Hall gens (or_intror Hg)). congruence.
    + exists k'. split; [|exact Hr]. now apply filter_In in Hk' as (Hk' & _).
Qed.

Lemma mbpp_evaluate_spec_witness :
  (exists entries,
     evaluate [[true; false]; [true; true]] = Ret entries
     /\ map fst entries = [1])
  /\ exists k',
       evaluate [[true; false; true; true; false]; [true]] = Raise (KeyError (key k')).
Proof.
  split.
  - destruct (proj1 (proj2 mbpp_evaluate_spec [true; false] [[true; true]]))
      as (entries & He & Hk & _).
    + intros k gens Hk Hf [<-|[]]. exact Hf.
    + exists entries. split; [exact He|exact Hk].
  - destruct (proj2 (proj2 mbpp_evaluate_spec [true; false; true; true; false] [[true]])
                5 [true]) as (k' & _ & Hr);
      [right; now left|reflexivity|now left|reflexivity|].
    exists k'. exact Hr.
Defined.

End MbppEvaluate.
